(** * cheetah: the request context

    A shallow embedding of [RequestContext] (the class that lazily parses,
    validates and caches the cookies, headers, query and body of one incoming
    request) and of the platform objects it runs on, with the properties of
    its accessors.

    Conventions.
    - A JavaScript string is a [string]; one [ascii] is one UTF-16 code unit
      in the range 0..255.  Header values are byte strings on the platform,
      and a query string taken from a URL is ASCII.
    - A plain object is a finite map from property names to values
      ([gmap string V]) holding its own properties; what the prototype chain
      contributes to reads and writes is written out where the code reads or
      writes a property.
    - A getter or method is a function from the context to its outcome and
      the context afterwards.  An outcome is a returned value or a thrown
      exception; for an [async] method it is what the promise settles to. *)

From Stdlib Require Import NArith Ascii String.
From stdpp Require Import base option list gmap strings.

Local Open Scope string_scope.

(** ** The platform *)

Module Js.

(** *** Characters and regular-expression classes *)

Definition code (a : ascii) : nat := nat_of_ascii a.

(** [\s]: white space and line terminators (those below U+0100). *)
Definition WhiteSpace (a : ascii) : bool :=
  bool_decide (code a ∈ [9; 10; 11; 12; 13; 32; 160]%nat).

(** The characters [.] refuses (those below U+0100). *)
Definition LineTerminator (a : ascii) : bool :=
  bool_decide (code a ∈ [10; 13]%nat).

Fixpoint take_while (f : ascii → bool) (x : string) : string :=
  match x with
  | String a x' => if f a then String a (take_while f x') else ""
  | "" => ""
  end.

(** *** [String.prototype.split]

    A separator is given by its sticky match: at a position whose
    character is [a] and whose remainder is [rest], either no match, or
    the captures and the number of characters of [rest] that the match
    covers after [a].  (No separator used here matches the empty
    string.) *)
Definition separator : Type := ascii → string → option (list string * nat).

(** [;\s*] *)
Definition semicolon_spaces : separator := fun a rest =>
  if Ascii.eqb a ";" then Some ([], String.length (take_while WhiteSpace rest))
  else None.

(** [=(.+)] *)
Definition equals_rest : separator := fun a rest =>
  if Ascii.eqb a "=" then
    match take_while (fun b => negb (LineTerminator b)) rest with
    | "" => None
    | cap => Some ([cap], String.length cap)
    end
  else None.

(** A one-character string separator, as in [split('&')]. *)
Definition char (c : ascii) : separator := fun a _ =>
  if Ascii.eqb a c then Some ([], 0) else None.

(** The loop of the split algorithm: [piece] is the text since the end of
    the last match (reversed), [skip] the characters still covered by the
    match that was just taken.  At the end of the input the pending piece
    is pushed, also when it is empty. *)
Fixpoint split_go (sep : separator) (x : string) (skip : nat) (piece : string)
  : list string :=
  match x with
  | "" => [String.rev piece]
  | String a x' =>
      match skip with
      | S n => split_go sep x' n piece
      | O =>
          match sep a x' with
          | Some (caps, n) => String.rev piece :: caps ++ split_go sep x' n ""
          | None => split_go sep x' 0 (String a piece)
          end
      end
  end.

Definition split (sep : separator) (x : string) : list string :=
  split_go sep x 0 "".

(** The array pattern [[k, v]]: a missing element is [undefined] ([None]). *)
Definition destructure2 (parts : list string) : option string * option string :=
  (parts !! 0%nat, parts !! 1%nat).

(** A property key made from a value that may be [undefined]. *)
Definition to_property_key (k : option string) : string := default "undefined" k.

(** *** [String.prototype.toLowerCase] (on code units below U+0100) *)
Definition lower_char (a : ascii) : ascii :=
  let n := code a in
  if bool_decide ((65 ≤ n ≤ 90)%nat ∨ ((192 ≤ n ≤ 222)%nat ∧ n ≠ 215%nat))
  then ascii_of_nat (n + 32) else a.

Fixpoint toLowerCase (x : string) : string :=
  match x with
  | String a x' => String (lower_char a) (toLowerCase x')
  | "" => ""
  end.

(** *** Plain objects

    [Object.prototype] has these properties; every object literal inherits
    them.  All are writable data properties (an assignment through an
    inheriting object creates an own property), except [__proto__], which
    is an accessor: its setter replaces the prototype of the receiver when
    the assigned value is an object or [null] and does nothing for any
    other value. *)
Definition object_prototype_keys : list string :=
  ["constructor"; "__proto__"; "hasOwnProperty"; "isPrototypeOf";
   "propertyIsEnumerable"; "toLocaleString"; "toString"; "valueOf";
   "__defineGetter__"; "__defineSetter__"; "__lookupGetter__";
   "__lookupSetter__"].

(** **** Objects that are only ever assigned primitives

    Their prototype stays [Object.prototype], so the own properties are
    the whole state. *)
Section primitives.
Context {V : Type}.

(** [o[k] = v] for a primitive [v]. *)
Definition prim_set (o : gmap string V) (k : string) (v : V) : gmap string V :=
  if bool_decide (k = "__proto__") then o else <[k:=v]> o.

(** [ToBoolean(o[k])], given the truth value of an own value: an
    inherited property is a function or an object, a missing one is
    [undefined]. *)
Definition prim_truthy (truthy : V → bool) (o : gmap string V) (k : string) : bool :=
  match o !! k with
  | Some v => truthy v
  | None => bool_decide (k ∈ object_prototype_keys)
  end.
End primitives.

(** **** Objects that may be assigned objects

    Here an assignment to [__proto__] can replace the prototype, which
    decides what a later assignment to [__proto__] does. *)
Inductive proto (V : Type) : Type :=
  | ObjectPrototype
  | NullPrototype
  | ValuePrototype (v : V).
Global Arguments ObjectPrototype {V}.
Global Arguments NullPrototype {V}.
Global Arguments ValuePrototype {V} v.

Record object (V : Type) : Type :=
  Object { own : gmap string V; prototype : proto V }.
Global Arguments Object {V} own prototype.
Global Arguments own {V} o.
Global Arguments prototype {V} o.

(** What an assignment needs to know of a value. *)
Class Assignable (V : Type) : Type := {
  is_null : V → bool;
  is_object : V → bool;
  (** an object with an own property named [__proto__] *)
  has_own_proto : V → bool
}.

Section objects.
Context {V : Type} `{Assignable V}.

(** [{}] *)
Definition empty_object : object V := Object ∅ ObjectPrototype.

(** Whether a property lookup of [__proto__] that starts at the
    prototype ends at the accessor of [Object.prototype]. *)
Definition reaches_accessor (p : proto V) : bool :=
  match p with
  | ObjectPrototype => true
  | NullPrototype => false
  | ValuePrototype v => negb (has_own_proto v)
  end.

(** [o[k] = v] *)
Definition obj_set (o : object V) (k : string) (v : V) : object V :=
  if bool_decide (k = "__proto__")
     && negb (bool_decide (is_Some (own o !! k)))
     && reaches_accessor (prototype o)
  then
    if is_null v then Object (own o) NullPrototype
    else if is_object v then Object (own o) (ValuePrototype v)
    else o
  else Object (<[k:=v]> (own o)) (prototype o).
End objects.

(** *** JSON values (a number is kept as an integer) *)
#[warnings="-register-all"]
Inductive JsonValue : Type :=
  | JNull
  | JBool (b : bool)
  | JNum (n : Z)
  | JStr (x : string)
  | JArr (l : list JsonValue)
  | JObj (l : list (string * JsonValue)).

Global Instance JsonValue_assignable : Assignable JsonValue := {|
  is_null j := match j with JNull => true | _ => false end;
  is_object j := match j with JArr _ | JObj _ => true | _ => false end;
  has_own_proto j :=
    match j with
    | JObj l => bool_decide ("__proto__" ∈ l.*1)
    | _ => false
    end
|}.

(** *** Form data *)
Record File : Type := { filename : string; content : string }.

Inductive FormDataEntryValue : Type :=
  | EntryString (x : string)
  | EntryFile (f : File).

Definition FormData : Type := list (string * FormDataEntryValue).

Global Instance FormDataEntryValue_assignable : Assignable FormDataEntryValue := {|
  is_null _ := false;
  is_object e := match e with EntryFile _ => true | _ => false end;
  has_own_proto _ := false
|}.

(** The accessors without setter that an object inherits once a [File] is
    its prototype, on the runtimes the framework runs on: [name] and
    [lastModified] of [File.prototype], [size] and [type] of
    [Blob.prototype].  (The methods of the two prototypes are writable data
    properties.)  In strict mode an assignment that reaches such an
    accessor throws a [TypeError]. *)
Definition file_getters : list string :=
  ["name"; "lastModified"; "size"; "type"].

(** *** Exceptions, outcomes and promises *)

(** Modelled from the spec: the class [Exception] that the context imports
    from [./mod.ts], which is not among the sources; by the specification a
    classified exception that carries an HTTP status code.  The other two
    constructors are what the platform and its standard library throw: the
    [DeadlineError] of std/async, and the native errors by name
    ([TypeError], [SyntaxError], [URIError], ...). *)
Inductive thrown : Type :=
  | Exception (status : N)
  | DeadlineError
  | NativeError (name : string).

Inductive outcome (A : Type) : Type :=
  | Returns (a : A)
  | Throws (e : thrown).
Global Arguments Returns {A} a.
Global Arguments Throws {A} e.

Definition outcome_map {A B} (f : A → B) (o : outcome A) : outcome B :=
  match o with Returns a => Returns (f a) | Throws e => Throws e end.

Definition outcome_bind {A B} (o : outcome A) (f : A → outcome B) : outcome B :=
  match o with Returns a => f a | Throws e => Throws e end.

(** A promise, by how it settles: fulfilled or rejected [at_ms]
    milliseconds from now, or never. *)
Inductive Promise (A : Type) : Type :=
  | Fulfils (at_ms : N) (a : A)
  | Rejects (at_ms : N) (e : thrown)
  | Pending.
Global Arguments Fulfils {A} at_ms a.
Global Arguments Rejects {A} at_ms e.
Global Arguments Pending {A}.

(** [deadline(p, delay)] of std/async: [p] raced against a timer that
    rejects with a [DeadlineError] after [delay] milliseconds; awaited.  A
    promise that settles in the millisecond of the timer loses the race. *)
Definition resolveWithDeadline {A} (p : Promise A) (delay : N) : outcome A :=
  match p with
  | Fulfils t a => if (t <? delay)%N then Returns a else Throws DeadlineError
  | Rejects t e => if (t <? delay)%N then Throws e else Throws DeadlineError
  | Pending => Throws DeadlineError
  end.

Definition settlement {A} (p : Promise A) : Promise unit :=
  match p with
  | Fulfils t _ => Fulfils t ()
  | Rejects t e => Rejects t e
  | Pending => Pending
  end.

Definition settles_within {A} (p : Promise A) (delay : N) : bool :=
  match p with
  | Fulfils t _ | Rejects t _ => (t <? delay)%N
  | Pending => false
  end.

(** [try { return await ... } catch (_err) { return null }] *)
Definition or_null {A} (o : outcome A) : option A :=
  match o with Returns v => Some v | Throws _err => None end.

(** The global functions the query accessor calls. *)
Class Globals : Type := {
  decodeURIComponent : string → outcome string;
  JSON_parse : string → outcome JsonValue
}.

End Js.

Import Js.

(** ** Schemas (zod) *)

Module Zod.

(** [_def]: the type name of a schema and, for a union, its members. *)
#[warnings="-register-all"]
Inductive ZodDef : Type :=
  | Def (typeName : string) (options : list ZodDef).

Definition typeName (d : ZodDef) : string := let 'Def n _ := d in n.
Definition options (d : ZodDef) : list ZodDef := let 'Def _ o := d in o.

Inductive SafeParseReturnType (O : Type) : Type :=
  | ParseSuccess (data : O)
  | ParseError.
Global Arguments ParseSuccess {O} data.
Global Arguments ParseError {O}.

Definition success {O} (res : SafeParseReturnType O) : bool :=
  match res with ParseSuccess _ => true | ParseError => false end.

(** A schema is used through [_def] and [safeParse] only. *)
Record ZodType (I O : Type) : Type := {
  _def : ZodDef;
  safeParse : I → SafeParseReturnType O
}.
Global Arguments _def {I O} z.
Global Arguments safeParse {I O} z raw.

End Zod.

(** ** The request *)

Module Headers.

(** The headers of a request: [get(name)] ([null] is [None]) and the
    entries in the order the iterator yields them. *)
Record t : Type := {
  get : string → option string;
  entries : list (string * string)
}.

End Headers.

Module Body.

(** The body stream of a request or of a copy of it, by what each way of
    reading it settles to. *)
Record t : Type := {
  text : Promise string;
  json : Promise JsonValue;
  formData : Promise FormData;
  blob : Promise string;
  arrayBuffer : Promise string
}.

Inductive reader : Type := RText | RJson | RFormData | RBlob | RArrayBuffer.

(** When and how the promise of a reader settles, its value left out. *)
Definition settling (b : t) (k : reader) : Promise unit :=
  match k with
  | RText => settlement (text b)
  | RJson => settlement (json b)
  | RFormData => settlement (formData b)
  | RBlob => settlement (blob b)
  | RArrayBuffer => settlement (arrayBuffer b)
  end.

End Body.

Module Request.

Inductive call : Type :=
  | Read (k : Body.reader)
  | Clone.

(** The request at the time of a call.  [copy] is what [clone()] yields:
    the body of the copy, or a throw.  [calls] records the methods called
    on the request, latest first. *)
Record t : Type := {
  method : string;
  headers : Headers.t;
  bodyUsed : bool;
  body : Body.t;
  copy : outcome Body.t;
  calls : list call
}.

Definition called (what : call) (req : t) : t :=
  {| method := method req; headers := headers req;
     bodyUsed := match what with Clone => bodyUsed req | Read _ => true end;
     body := body req; copy := copy req; calls := what :: calls req |}.

Definition text (req : t) : Promise string * t :=
  (Body.text (body req), called (Read Body.RText) req).
Definition json (req : t) : Promise JsonValue * t :=
  (Body.json (body req), called (Read Body.RJson) req).
Definition formData (req : t) : Promise FormData * t :=
  (Body.formData (body req), called (Read Body.RFormData) req).
Definition blob (req : t) : Promise string * t :=
  (Body.blob (body req), called (Read Body.RBlob) req).
Definition arrayBuffer (req : t) : Promise string * t :=
  (Body.arrayBuffer (body req), called (Read Body.RArrayBuffer) req).
Definition clone (req : t) : outcome Body.t * t :=
  (copy req, called Clone req).

End Request.

(** ** The schema bundle *)

(** The values a body schema is given: the text, the flattened form data,
    or the decoded JSON. *)
Inductive BodyInput : Type :=
  | BText (x : string)
  | BForm (o : object FormDataEntryValue)
  | BJson (j : JsonValue).

Module Schemas.
Section schemas.

(** The static types of the four schemas. *)
Context {ValidatedBody ValidatedCookies ValidatedHeaders ValidatedQuery : Type}.

(** One optional schema per field; [transform] is [s.transform === true]. *)
Record t : Type := {
  body : option (Zod.ZodType BodyInput ValidatedBody);
  cookies : option (Zod.ZodType (gmap string (option string)) ValidatedCookies);
  headers : option (Zod.ZodType (gmap string string) ValidatedHeaders);
  query : option (Zod.ZodType (object JsonValue) ValidatedQuery);
  transform : bool
}.

End schemas.
Global Arguments t : clear implicits.
End Schemas.

(** ** The request context *)

Module RequestContext.
Section context.

Context {ValidatedBody ValidatedCookies ValidatedHeaders ValidatedQuery : Type}.
Context `{Globals}.

(** The private fields.  An unset slot is [undefined] ([None]); a set slot
    holds an object, which is truthy also when it is empty. *)
Record t : Type := {
  c : option (gmap string (option string));
  h : option (gmap string string);
  i : option string;
  p : gmap string string;
  q : option (object JsonValue);
  qs : option string;
  r : Request.t;
  s : option (Schemas.t ValidatedBody ValidatedCookies ValidatedHeaders ValidatedQuery)
}.

Definition set_c (ctx : t) (v : gmap string (option string)) : t :=
  {| c := Some v; h := h ctx; i := i ctx; p := p ctx; q := q ctx;
     qs := qs ctx; r := r ctx; s := s ctx |}.
Definition set_h (ctx : t) (v : gmap string string) : t :=
  {| c := c ctx; h := Some v; i := i ctx; p := p ctx; q := q ctx;
     qs := qs ctx; r := r ctx; s := s ctx |}.
Definition set_q (ctx : t) (v : object JsonValue) : t :=
  {| c := c ctx; h := h ctx; i := i ctx; p := p ctx; q := Some v;
     qs := qs ctx; r := r ctx; s := s ctx |}.
Definition set_r (ctx : t) (v : Request.t) : t :=
  {| c := c ctx; h := h ctx; i := i ctx; p := p ctx; q := q ctx;
     qs := qs ctx; r := v; s := s ctx |}.

(** [this.#s?.field] *)
Definition schema_of {A} (ctx : t) (field : Schemas.t _ _ _ _ → option A) : option A :=
  s ctx ≫= field.

(** *** [body()] *)

(** The test on [_def] that selects reading the body as text. *)
Definition wants_text (d : Zod.ZodDef) : bool :=
  String.eqb (Zod.typeName d) "ZodString"
  || String.eqb (Zod.typeName d) "ZodUnion"
     && forallb (fun o => String.eqb (Zod.typeName o) "ZodString") (Zod.options d).

(** [this.#s?.transform === true] *)
Definition transforms (ctx : t) : bool :=
  match s ctx with Some sch => Schemas.transform sch | None => false end.

(** [body[key] = value], in the strict mode of a class body: when a [File]
    has become the prototype of [body] (through an entry named
    [__proto__]), an assignment to a key that [body] does not own and that
    the [File] inherits as a getter throws. *)
Definition form_set (o : object FormDataEntryValue) (key : string)
    (value : FormDataEntryValue) : outcome (object FormDataEntryValue) :=
  match prototype o with
  | ValuePrototype (EntryFile _) =>
      if bool_decide (key ∈ file_getters)
         && negb (bool_decide (is_Some (own o !! key)))
      then Throws (NativeError "TypeError")
      else Returns (obj_set o key value)
  | _ => Returns (obj_set o key value)
  end.

(** [for (const [key, value] of formData.entries()) body[key] = value] *)
Fixpoint flatten_from (entries : FormData) (o : object FormDataEntryValue)
    : outcome (object FormDataEntryValue) :=
  match entries with
  | [] => Returns o
  | (key, value) :: rest =>
      outcome_bind (form_set o key value) (flatten_from rest)
  end.

(** [body = {}], then the loop. *)
Definition flatten (entries : FormData) : outcome (object FormDataEntryValue) :=
  flatten_from entries empty_object.

(** The [try] block of [body()]: the decoded body, or what was thrown. *)
Definition body_try (ctx : t) (schema : Zod.ZodType BodyInput ValidatedBody)
    : outcome BodyInput * t :=
  if wants_text (Zod._def schema) then
    let '(promise, req) := Request.text (r ctx) in
    (outcome_map BText (resolveWithDeadline promise 3000), set_r ctx req)
  else if transforms ctx
          && bool_decide (Headers.get (Request.headers (r ctx)) "content-type"
                          = Some "multipart/form-data") then
    let '(promise, req) := Request.formData (r ctx) in
    (outcome_bind (resolveWithDeadline promise 3000)
       (fun fd => outcome_map BForm (flatten fd)),
     set_r ctx req)
  else
    let '(promise, req) := Request.json (r ctx) in
    (outcome_map BJson (resolveWithDeadline promise 3000), set_r ctx req).

Definition body (ctx : t) : outcome (option ValidatedBody) * t :=
  match schema_of ctx Schemas.body with
  | None => (Returns None, ctx)
  | Some schema =>
      match body_try ctx schema with
      | (Throws err, ctx') =>
          (Throws (Exception (match err with
                              | DeadlineError => 413
                              | _ => 400
                              end)), ctx')
      | (Returns decoded, ctx') =>
          match Zod.safeParse schema decoded with
          | Zod.ParseSuccess data => (Returns (Some data), ctx')
          | Zod.ParseError => (Throws (Exception 400), ctx')
          end
      end
  end.

(** *** [get cookies()] *)

(** The [reduce] over the split pairs, then [delete this.#c['']]. *)
Definition parse_cookies (header : string) : gmap string (option string) :=
  delete ""
    (foldl (fun acc pair =>
              let '(k, v) := destructure2 pair in
              prim_set acc (to_property_key k) v)
           ∅
           (map (split equals_rest) (split semicolon_spaces header))).

(** The [try] block: the object assigned to the slot, or what was thrown. *)
Definition cookies_try (ctx : t) : outcome (gmap string (option string)) :=
  let header := default "" (Headers.get (Request.headers (r ctx)) "cookies") in
  if (1000 <? String.length header)%nat then Throws (Exception 413)
  else Returns (parse_cookies header).

Definition cookies (ctx : t) : outcome (option (gmap string (option string))) * t :=
  match c ctx, schema_of ctx Schemas.cookies with
  | Some _, _ | None, None => (Returns (c ctx), ctx)
  | None, Some schema =>
      let parsed :=
        match cookies_try ctx with
        | Returns o => o
        | Throws _err => ∅
        end in
      let ctx' := set_c ctx parsed in
      if Zod.success (Zod.safeParse schema parsed)
      then (Returns (Some parsed), ctx')
      else (Throws (Exception 400), ctx')
  end.

(** *** [get headers()] *)

Definition nonempty (x : string) : bool := negb (String.eqb x "").

(** The [for] loop over the header entries, with its counter. *)
Fixpoint headers_loop (entries : list (string * string)) (num : nat)
    (o : gmap string string) : gmap string string :=
  match entries with
  | [] => o
  | (key, value) :: rest =>
      if (num =? 50)%nat then o
      else
        let o' :=
          if negb (prim_truthy nonempty o (toLowerCase key))
          then prim_set o (toLowerCase key) value
          else o in
        headers_loop rest (S num) o'
  end.

Definition headers (ctx : t) : outcome (gmap string string) * t :=
  match h ctx with
  | Some o => (Returns o, ctx)
  | None =>
      let o := headers_loop (Headers.entries (Request.headers (r ctx))) 0 ∅ in
      let ctx' := set_h ctx o in
      match schema_of ctx Schemas.headers with
      | Some schema =>
          if Zod.success (Zod.safeParse schema o)
          then (Returns o, ctx')
          else (Throws (Exception 400), ctx')
      | None => (Returns o, ctx')
      end
  end.

(** *** [get query()] *)

(** The [for] loop over the segments: the object built, and the exception
    that ended the loop, if any. *)
Fixpoint query_loop (arr : list string) (o : object JsonValue)
    : object JsonValue * option thrown :=
  match arr with
  | [] => (o, None)
  | segment :: rest =>
      match destructure2 (split (char "=") segment) with
      | (None, _) | (Some "", _) => query_loop rest o
      | (Some key, None) => query_loop rest (obj_set o key (JBool true))
      | (Some key, Some value) =>
          match outcome_bind (decodeURIComponent value) JSON_parse with
          | Returns j => query_loop rest (obj_set o key j)
          | Throws _err =>
              match decodeURIComponent value with
              | Returns x => query_loop rest (obj_set o key (JStr x))
              | Throws e => (o, Some e)
              end
          end
      end
  end.

(** [this.#q = {}; if (this.#qs) { ... }]: the object built, and the
    exception that ended the loop, if any. *)
Definition query_parse (qs : option string) : object JsonValue * option thrown :=
  match qs with
  | None | Some "" => (empty_object, None)
  | Some x => query_loop (split (char "&") x) empty_object
  end.

Definition query (ctx : t) : outcome (option (object JsonValue)) * t :=
  match q ctx, schema_of ctx Schemas.query with
  | Some _, _ | None, None => (Returns (q ctx), ctx)
  | None, Some schema =>
      let '(o, err) := query_parse (qs ctx) in
      let ctx' := set_q ctx o in
      match err with
      | Some e => (Throws e, ctx')
      | None =>
          if Zod.success (Zod.safeParse schema o)
          then (Returns (Some o), ctx')
          else (Throws (Exception 400), ctx')
      end
  end.

(** *** [blob()], [buffer()], [formData()] *)

Definition blob (deadline : option N) (ctx : t) : outcome (option string) * t :=
  let deadline := default 2500%N deadline in
  let '(res, req) :=
    if Request.bodyUsed (r ctx) then
      match Request.clone (r ctx) with
      | (Returns copy, req) => (resolveWithDeadline (Body.blob copy) deadline, req)
      | (Throws e, req) => (Throws e, req)
      end
    else
      let '(promise, req) := Request.blob (r ctx) in
      (resolveWithDeadline promise deadline, req) in
  (Returns (or_null res), set_r ctx req).

Definition buffer (deadline : option N) (ctx : t) : outcome (option string) * t :=
  let deadline := default 2500%N deadline in
  let '(res, req) :=
    if Request.bodyUsed (r ctx) then
      match Request.clone (r ctx) with
      | (Returns copy, req) =>
          (resolveWithDeadline (Body.arrayBuffer copy) deadline, req)
      | (Throws e, req) => (Throws e, req)
      end
    else
      let '(promise, req) := Request.arrayBuffer (r ctx) in
      (resolveWithDeadline promise deadline, req) in
  (Returns (or_null res), set_r ctx req).

Definition formData (deadline : option N) (ctx : t)
    : outcome (option FormData) * t :=
  let deadline := default 2500%N deadline in
  let '(res, req) :=
    if Request.bodyUsed (r ctx) then
      match Request.clone (r ctx) with
      | (Returns copy, req) =>
          (resolveWithDeadline (Body.formData copy) deadline, req)
      | (Throws e, req) => (Throws e, req)
      end
    else
      let '(promise, req) := Request.formData (r ctx) in
      (resolveWithDeadline promise deadline, req) in
  (Returns (or_null res), set_r ctx req).

(** *** Calling an accessor [n] times in a row

    The outcomes in order, and the context after the last call. *)
Fixpoint accesses {A} (get : t → outcome A * t) (n : nat) (ctx : t)
    : list (outcome A) * t :=
  match n with
  | O => ([], ctx)
  | S n' =>
      let '(res, ctx') := get ctx in
      let '(later, ctx'') := accesses get n' ctx' in
      (res :: later, ctx'')
  end.

(** *** The constructor and the plain getters

    The constructor assigns [#p], [#qs], [#r] and [#s]; the other private
    fields start as [undefined].  Nothing in the class assigns [#i]. *)
Definition new (p : gmap string string) (qs : option string) (r : Request.t)
    (s : option (Schemas.t ValidatedBody ValidatedCookies ValidatedHeaders
                   ValidatedQuery)) : t :=
  {| c := None; h := None; i := None; p := p; q := None; qs := qs; r := r;
     s := s |}.

Definition ip (ctx : t) : option string := i ctx.
Definition method (ctx : t) : string := Request.method (r ctx).
Definition raw (ctx : t) : Request.t := r ctx.
Definition stream (ctx : t) : Body.t := Request.body (r ctx).

(** *** Sequences of calls

    The accessors and readers a handler can call, and what a call throws,
    if anything, with the context afterwards. *)
Inductive operation : Type :=
  | OpBody
  | OpCookies
  | OpHeaders
  | OpQuery
  | OpBlob (deadline : option N)
  | OpBuffer (deadline : option N)
  | OpFormData (deadline : option N).

Definition thrown_by {A} (res : outcome A) : option thrown :=
  match res with Returns _ => None | Throws e => Some e end.

Definition perform (op : operation) (ctx : t) : option thrown * t :=
  match op with
  | OpBody => let '(res, ctx') := body ctx in (thrown_by res, ctx')
  | OpCookies => let '(res, ctx') := cookies ctx in (thrown_by res, ctx')
  | OpHeaders => let '(res, ctx') := headers ctx in (thrown_by res, ctx')
  | OpQuery => let '(res, ctx') := query ctx in (thrown_by res, ctx')
  | OpBlob deadline => let '(res, ctx') := blob deadline ctx in (thrown_by res, ctx')
  | OpBuffer deadline =>
      let '(res, ctx') := buffer deadline ctx in (thrown_by res, ctx')
  | OpFormData deadline =>
      let '(res, ctx') := formData deadline ctx in (thrown_by res, ctx')
  end.

Fixpoint run (ops : list operation) (ctx : t) : list (option thrown) * t :=
  match ops with
  | [] => ([], ctx)
  | op :: rest =>
      let '(e, ctx') := perform op ctx in
      let '(later, ctx'') := run rest ctx' in
      (e :: later, ctx'')
  end.

End context.
Global Arguments t : clear implicits.
End RequestContext.

(** ** A fragment of the global functions

    Enough of [decodeURIComponent] and [JSON.parse] to evaluate the
    accessors on examples: percent escapes of ASCII characters, and the JSON
    scalars [true], [false], [null], decimal integers and string literals
    without escapes.  On these inputs the fragment answers as the platform
    does, and so it does on a malformed escape ([URIError]) and on a text
    that is no JSON ([SyntaxError]).  Escapes of other characters and other
    JSON texts (arrays, objects, fractions, exponents, escaped characters,
    white space around the value) are outside the fragment, which refuses
    them. *)

Module Fragment.

Definition hex_digit (a : ascii) : option nat :=
  let n := code a in
  if bool_decide (48 ≤ n ≤ 57)%nat then Some (n - 48)%nat
  else if bool_decide (65 ≤ n ≤ 70)%nat then Some (n - 55)%nat
  else if bool_decide (97 ≤ n ≤ 102)%nat then Some (n - 87)%nat
  else None.

Fixpoint decode (x : string) : outcome string :=
  match x with
  | "" => Returns ""
  | String "%" (String a (String b rest)) =>
      match hex_digit a, hex_digit b with
      | Some hi, Some lo =>
          if (hi <? 8)%nat
          then outcome_map (String (ascii_of_nat (16 * hi + lo))) (decode rest)
          else Throws (NativeError "URIError")
      | _, _ => Throws (NativeError "URIError")
      end
  | String "%" _ => Throws (NativeError "URIError")
  | String a rest => outcome_map (String a) (decode rest)
  end.

Definition is_digit (a : ascii) : bool := bool_decide (48 ≤ code a ≤ 57)%nat.

Fixpoint all_chars (f : ascii → bool) (x : string) : bool :=
  match x with
  | "" => true
  | String a x' => f a && all_chars f x'
  end.

Fixpoint digits_value (x : string) (acc : Z) : Z :=
  match x with
  | "" => acc
  | String a x' => digits_value x' (10 * acc + Z.of_nat (code a - 48))%Z
  end.

(** [0] or a digit sequence that does not start with [0]. *)
Definition natural (x : string) : option Z :=
  match x with
  | "" => None
  | "0" => Some 0%Z
  | String "0" _ => None
  | _ => if all_chars is_digit x then Some (digits_value x 0%Z) else None
  end.

Definition quote : ascii := ascii_of_nat 34.

(** The characters a string literal may hold unescaped. *)
Definition plain_char (a : ascii) : bool :=
  negb (Ascii.eqb a quote) && negb (Ascii.eqb a "\") && (32 <=? code a)%nat.

Definition of_natural (sign : Z) (x : string) : outcome JsonValue :=
  match natural x with
  | Some n => Returns (JNum (sign * n))
  | None => Throws (NativeError "SyntaxError")
  end.

Definition parse (x : string) : outcome JsonValue :=
  if String.eqb x "true" then Returns (JBool true)
  else if String.eqb x "false" then Returns (JBool false)
  else if String.eqb x "null" then Returns JNull
  else
    match x with
    | "" => Throws (NativeError "SyntaxError")
    | String a x' =>
        if Ascii.eqb a quote then
          match String.rev x' with
          | String b inner =>
              if Ascii.eqb b quote && all_chars plain_char inner
              then Returns (JStr (String.rev inner))
              else Throws (NativeError "SyntaxError")
          | "" => Throws (NativeError "SyntaxError")
          end
        else if Ascii.eqb a "-" then of_natural (-1) x'
        else of_natural 1 x
    end.

Definition globals : Globals :=
  {| decodeURIComponent := decode; JSON_parse := parse |}.

End Fragment.

(** ** Contexts to evaluate on *)

Module Examples.

Definition context_type : Type :=
  RequestContext.t BodyInput (gmap string (option string)) (gmap string string)
    (object JsonValue).

Definition bundle_type : Type :=
  Schemas.t BodyInput (gmap string (option string)) (gmap string string)
    (object JsonValue).

(** A schema that accepts every value, and one that accepts none. *)
Definition accept {I} (typeName : string) : Zod.ZodType I I :=
  {| Zod._def := Zod.Def typeName []; Zod.safeParse := Zod.ParseSuccess |}.
Definition reject {I} (typeName : string) : Zod.ZodType I I :=
  {| Zod._def := Zod.Def typeName []; Zod.safeParse := fun _ => Zod.ParseError |}.

(** A body that never arrives. *)
Definition silent : Body.t :=
  {| Body.text := Pending; Body.json := Pending; Body.formData := Pending;
     Body.blob := Pending; Body.arrayBuffer := Pending |}.

Definition request (get : string → option string) (entries : list (string * string))
    (used : bool) (body : Body.t) (copy : outcome Body.t) : Request.t :=
  {| Request.method := "POST";
     Request.headers := {| Headers.get := get; Headers.entries := entries |};
     Request.bodyUsed := used; Request.body := body; Request.copy := copy;
     Request.calls := [] |}.

Definition context (qs : option string) (req : Request.t) (sch : option bundle_type)
    : context_type :=
  {| RequestContext.c := None; RequestContext.h := None; RequestContext.i := None;
     RequestContext.p := ∅; RequestContext.q := None; RequestContext.qs := qs;
     RequestContext.r := req; RequestContext.s := sch |}.

(** A request whose only header is [cookies]. *)
Definition with_cookies (header : string) : Request.t :=
  request (fun name => if String.eqb name "cookies" then Some header else None)
    [("cookies", header)] false silent (Returns silent).

Definition cookie_schema (schema : Zod.ZodType (gmap string (option string)) _)
    : bundle_type :=
  {| Schemas.body := None; Schemas.cookies := Some schema;
     Schemas.headers := None; Schemas.query := None;
     Schemas.transform := false |}.

(** A bundle with the same kind of schema for the three cached fields. *)
Definition cached_schemas
    (schema : ∀ I, string → Zod.ZodType I I) : bundle_type :=
  {| Schemas.body := None;
     Schemas.cookies := Some (schema _ "ZodObject");
     Schemas.headers := Some (schema _ "ZodObject");
     Schemas.query := Some (schema _ "ZodObject");
     Schemas.transform := false |}.

Definition body_schema (schema : Zod.ZodType BodyInput BodyInput) : bundle_type :=
  {| Schemas.body := Some schema; Schemas.cookies := None;
     Schemas.headers := None; Schemas.query := None;
     Schemas.transform := false |}.

(** A request with the header [cookies: a=1] and the query string [d]. *)
Definition simple (sch : bundle_type) : context_type :=
  context (Some "d") (with_cookies "a=1") (Some sch).

(** A request whose body is read as given. *)
Definition posting (used : bool) (body : Body.t) (sch : option bundle_type) : context_type :=
  context None (request (fun _ => None) [] used body (Throws (NativeError "TypeError")))
    sch.

(** A bundle with a body schema and the transform flag set. *)
Definition transforming (schema : Zod.ZodType BodyInput BodyInput) : bundle_type :=
  {| Schemas.body := Some schema; Schemas.cookies := None;
     Schemas.headers := None; Schemas.query := None;
     Schemas.transform := true |}.

(** A request with the given content type, whose body is read as given. *)
Definition typed (content_type : string) (body : Body.t)
    (sch : option bundle_type) : context_type :=
  context None
    (request
       (fun name => if String.eqb name "content-type" then Some content_type
                    else None)
       [("content-type", content_type)] false body
       (Throws (NativeError "TypeError")))
    sch.

(** A form that arrives after 10 ms. *)
Definition form (entries : FormData) : Body.t :=
  {| Body.text := Pending; Body.json := Pending;
     Body.formData := Fulfils 10 entries; Body.blob := Pending;
     Body.arrayBuffer := Pending |}.

Definition upload : File := {| filename := "a.txt"; content := "abc" |}.

Fixpoint copies (n : nat) (a : ascii) : string :=
  match n with
  | O => ""
  | S n' => String a (copies n' a)
  end.

(** 1001 characters. *)
Definition overlong : string := copies 1001 "a".

End Examples.

Import RequestContext.

(** ** Splitting *)

Section splitting.
Implicit Types x pre post piece covered rest : string.
Implicit Types sep : separator.

Lemma append_cons a x y : String a x +:+ y = String a (x +:+ y).
Proof. reflexivity. Qed.

Lemma append_assoc x y z : (x +:+ y) +:+ z = x +:+ (y +:+ z).
Proof.
  induction x as [|a x IH]; [done|]. by rewrite !append_cons, IH.
Qed.

Lemma append_nil_r x : x +:+ "" = x.
Proof. induction x as [|a x IH]; [done|]. by rewrite append_cons, IH. Qed.

Lemma rev_app_rev_app x y z :
  String.rev_app (String.rev_app x y) z = String.rev_app y (x +:+ z).
Proof.
  revert y z. induction x as [|a x IH]; intros y z; [done|].
  rewrite append_cons. simpl. by rewrite IH.
Qed.

Lemma rev_app_append piece x :
  String.rev_app piece x = String.rev piece +:+ x.
Proof.
  unfold String.rev. revert x.
  induction piece as [|a piece IH]; intros x; [done|].
  simpl. rewrite (IH (String a x)), (IH (String a "")).
  by rewrite append_assoc.
Qed.

Lemma rev_rev_app x piece :
  String.rev (String.rev_app x piece) = String.rev piece +:+ x.
Proof.
  unfold String.rev at 1.
  by rewrite rev_app_rev_app, append_nil_r, rev_app_append.
Qed.

Lemma list_ascii_of_string_app x y :
  list_ascii_of_string (x +:+ y)
    = (list_ascii_of_string x ++ list_ascii_of_string y)%list.
Proof.
  induction x as [|a x IH]; [done|]. rewrite append_cons. simpl. by rewrite IH.
Qed.

(** The separator matches at no position of [pre] when [post] follows. *)
Local Abbreviation unmatched sep pre post :=
  (∀ before a after,
     pre = before +:+ String a after → sep a (after +:+ post) = None).

Lemma split_go_unmatched sep pre post piece :
  unmatched sep pre post →
  split_go sep (pre +:+ post) 0 piece
    = split_go sep post 0 (String.rev_app pre piece).
Proof.
  revert piece. induction pre as [|a pre IH]; intros piece Hno; [done|].
  rewrite append_cons. simpl. rewrite (Hno "" a pre eq_refl).
  apply IH. intros before b after ->.
  by apply (Hno (String a before) b after).
Qed.

Lemma split_go_covered sep covered rest piece :
  split_go sep (covered +:+ rest) (String.length covered) piece
    = split_go sep rest 0 piece.
Proof.
  induction covered as [|a covered IH]; [done|].
  rewrite append_cons. simpl. apply IH.
Qed.

(** Up to the first match: the text before it, the captures, and the
    split of what the match leaves. *)
Lemma split_first_match sep pre a covered rest caps :
  unmatched sep pre (String a (covered +:+ rest)) →
  sep a (covered +:+ rest) = Some (caps, String.length covered) →
  split sep (pre +:+ String a (covered +:+ rest))
    = pre :: (caps ++ split sep rest)%list.
Proof.
  intros Hno Hsep. unfold split.
  rewrite (split_go_unmatched _ _ _ _ Hno). simpl. rewrite Hsep.
  by rewrite rev_rev_app, split_go_covered.
Qed.

Lemma split_unmatched sep x :
  unmatched sep x "" → split sep x = [x].
Proof.
  intros Hno. unfold split.
  rewrite <- (append_nil_r x) at 1.
  rewrite (split_go_unmatched _ _ _ _ Hno). simpl.
  by rewrite rev_rev_app.
Qed.

(** *** A one-character separator *)

Lemma char_unmatched (c : ascii) pre post :
  c ∉ list_ascii_of_string pre → unmatched (char c) pre post.
Proof.
  intros Hc before a after ->. unfold char.
  destruct (Ascii.eqb_spec a c) as [->|]; [|done].
  exfalso. apply Hc. rewrite list_ascii_of_string_app. simpl. set_solver.
Qed.

Lemma split_char_cons (c : ascii) pre rest :
  c ∉ list_ascii_of_string pre →
  split (char c) (pre +:+ String c rest) = pre :: split (char c) rest.
Proof.
  intros Hc.
  apply (split_first_match (char c) pre c "" rest []).
  - by apply char_unmatched.
  - unfold char. by rewrite Ascii.eqb_refl.
Qed.

Lemma split_char_none (c : ascii) x :
  c ∉ list_ascii_of_string x → split (char c) x = [x].
Proof. intros Hc. by apply split_unmatched, char_unmatched. Qed.

(** *** The pattern [=(.+)] *)

Lemma take_while_all (f : ascii → bool) x :
  Forall (fun a => f a = true) (list_ascii_of_string x) →
  take_while f x = x.
Proof.
  induction x as [|a x IH]; simpl; [done|].
  intros [Ha Hx]%Forall_cons. rewrite Ha. by rewrite IH.
Qed.

Lemma equals_rest_other a rest : a ≠ "="%char → equals_rest a rest = None.
Proof. intros Ha. unfold equals_rest. by destruct (Ascii.eqb_spec a "="). Qed.

(** A pair is split at its first [=] when a value follows: the value may
    hold further [=]. *)
Lemma split_equals_value k v :
  "="%char ∉ list_ascii_of_string k →
  v ≠ "" →
  Forall (fun a => LineTerminator a = false) (list_ascii_of_string v) →
  split equals_rest (k +:+ String "=" v) = [k; v; ""].
Proof.
  intros Hk Hv Hline.
  rewrite <- (append_nil_r v) at 1.
  apply (split_first_match equals_rest k "=" v "" [v]).
  - intros before a after ->. apply equals_rest_other. intros ->.
    apply Hk. rewrite list_ascii_of_string_app. simpl. set_solver.
  - unfold equals_rest. simpl. rewrite append_nil_r.
    rewrite take_while_all.
    + by destruct v.
    + eapply Forall_impl; [exact Hline|]. by intros a ->.
Qed.

(** A pair that ends with its first [=] is not split at all. *)
Lemma split_equals_no_value k :
  "="%char ∉ list_ascii_of_string k →
  split equals_rest (k +:+ "=") = [k +:+ "="].
Proof.
  intros Hk. apply split_unmatched. intros before a after Heq.
  destruct (decide (a = "="%char)) as [->|Hne]; [|by apply equals_rest_other].
  assert (after = "") as ->.
  { revert k Hk Heq. induction before as [|b before IH]; intros k Hk Heq.
    - destruct k as [|b k]; simpl in Heq.
      + by injection Heq.
      + injection Heq as -> _. exfalso. apply Hk. simpl. set_solver.
    - destruct k as [|c k]; simpl in Heq.
      + injection Heq as _ Heq. by destruct before.
      + injection Heq as -> Heq. apply (IH k); [|done].
        intros Hin. apply Hk. simpl. set_solver. }
  done.
Qed.

Lemma split_equals_none x :
  "="%char ∉ list_ascii_of_string x → split equals_rest x = [x].
Proof.
  intros Hx. apply split_unmatched. intros before a after ->.
  apply equals_rest_other. intros ->.
  apply Hx. rewrite list_ascii_of_string_app. simpl. set_solver.
Qed.

(** *** The pattern [;\s*] *)

Lemma take_while_app (f : ascii → bool) white rest :
  Forall (fun a => f a = true) (list_ascii_of_string white) →
  take_while f rest = "" →
  take_while f (white +:+ rest) = white.
Proof.
  intros Hwhite Hrest. induction white as [|a white IH]; [done|].
  apply Forall_cons in Hwhite as [Ha Hwhite].
  rewrite append_cons. simpl. by rewrite Ha, IH.
Qed.

Lemma semicolon_spaces_other a rest :
  a ≠ ";"%char → semicolon_spaces a rest = None.
Proof.
  intros Ha. unfold semicolon_spaces. by destruct (Ascii.eqb_spec a ";").
Qed.

(** A [;] and the white space after it end a pair. *)
Lemma split_semicolon_cons pre white rest :
  ";"%char ∉ list_ascii_of_string pre →
  Forall (fun a => WhiteSpace a = true) (list_ascii_of_string white) →
  take_while WhiteSpace rest = "" →
  split semicolon_spaces (pre +:+ String ";" (white +:+ rest))
    = pre :: split semicolon_spaces rest.
Proof.
  intros Hpre Hwhite Hrest.
  apply (split_first_match semicolon_spaces pre ";" white rest []).
  - intros before a after ->. apply semicolon_spaces_other. intros ->.
    apply Hpre. rewrite list_ascii_of_string_app. simpl. set_solver.
  - unfold semicolon_spaces. simpl. by rewrite take_while_app.
Qed.

Lemma split_semicolon_none x :
  ";"%char ∉ list_ascii_of_string x → split semicolon_spaces x = [x].
Proof.
  intros Hx. apply split_unmatched. intros before a after ->.
  apply semicolon_spaces_other. intros ->.
  apply Hx. rewrite list_ascii_of_string_app. simpl. set_solver.
Qed.

(** *** The parts a query segment is read from *)

Lemma query_segment_flag key :
  "="%char ∉ list_ascii_of_string key →
  destructure2 (split (char "=") key) = (Some key, None).
Proof. intros Hk. by rewrite split_char_none. Qed.

Lemma query_segment_pair key value :
  "="%char ∉ list_ascii_of_string key →
  "="%char ∉ list_ascii_of_string value →
  destructure2 (split (char "=") (key +:+ String "=" value))
    = (Some key, Some value).
Proof.
  intros Hk Hv. by rewrite split_char_cons, split_char_none.
Qed.

(** The value of a segment ends at the second [=] of the segment. *)
Lemma query_segment_cut key value more :
  "="%char ∉ list_ascii_of_string key →
  "="%char ∉ list_ascii_of_string value →
  destructure2
    (split (char "=") (key +:+ String "=" (value +:+ String "=" more)))
    = (Some key, Some value).
Proof.
  intros Hk Hv. by rewrite !split_char_cons.
Qed.

End splitting.

(** ** Cookies *)

Section cookies.
Context {ValidatedBody ValidatedCookies ValidatedHeaders ValidatedQuery : Type}.
Abbreviation Ctx :=
  (RequestContext.t ValidatedBody ValidatedCookies ValidatedHeaders ValidatedQuery).
Implicit Types ctx : Ctx.

(** What the accessor does once the [try] block is over. *)
Lemma cookies_first_access ctx schema :
  c ctx = None →
  schema_of ctx Schemas.cookies = Some schema →
  ∃ parsed,
    parsed = match cookies_try ctx with Returns o => o | Throws _ => ∅ end ∧
    cookies ctx =
      (if Zod.success (Zod.safeParse schema parsed)
       then Returns (Some parsed) else Throws (Exception 400),
       set_c ctx parsed).
Proof.
  intros Hc Hs. eexists; split; [reflexivity|].
  unfold cookies. rewrite Hc, Hs.
  by destruct (Zod.success _).
Qed.

(** No pair is stored under the empty key. *)
Lemma parse_cookies_no_empty_key header : parse_cookies header !! "" = None.
Proof. unfold parse_cookies. apply lookup_delete_eq. Qed.

(** A pair with a value is read at its first [=]. *)
Lemma cookie_pair_value k v :
  "="%char ∉ list_ascii_of_string k →
  v ≠ "" →
  Forall (fun a => LineTerminator a = false) (list_ascii_of_string v) →
  destructure2 (split equals_rest (k +:+ String "=" v)) = (Some k, Some v).
Proof. intros Hk Hv Hline. by rewrite split_equals_value. Qed.

(** A pair that ends with its first [=] is read as a key that holds the
    [=], without value. *)
Lemma cookie_pair_no_value k :
  "="%char ∉ list_ascii_of_string k →
  destructure2 (split equals_rest (k +:+ "="))
    = (Some (k +:+ "="), None).
Proof. intros Hk. by rewrite split_equals_no_value. Qed.

Lemma prim_set_fold_last_wins {A V} (f : A → string * V) (l : list A) k :
  k ≠ "__proto__" →
  foldl (fun acc x => prim_set acc (f x).1 (f x).2) ∅ l !! k
    = (list_to_map (reverse (f <$> l)) : gmap string V) !! k.
Proof.
  intros Hk. induction l as [|x l IH] using rev_ind; [done|].
  rewrite foldl_snoc, fmap_app.
  change (f <$> [x]) with [f x]. rewrite reverse_snoc. simpl.
  unfold prim_set at 1. case_bool_decide as Hkey.
  - rewrite IH, Hkey. by rewrite lookup_insert_ne.
  - destruct (decide ((f x).1 = k)) as [<-|Hne].
    + by rewrite !lookup_insert_eq.
    + by rewrite !lookup_insert_ne.
Qed.

(** X9. The fold is last-wins: under a key, the value of the last pair of
    that key. *)
Lemma parse_cookies_last_wins header k :
  k ≠ "" → k ≠ "__proto__" →
  parse_cookies header !! k
    = (list_to_map
         (reverse ((fun pair => ((to_property_key (destructure2 pair).1),
                                 (destructure2 pair).2))
                   <$> (split equals_rest <$> split semicolon_spaces header)))
       : gmap string (option string)) !! k.
Proof.
  intros Hempty Hproto. unfold parse_cookies.
  rewrite lookup_delete_ne by done.
  by rewrite <- (prim_set_fold_last_wins _ _ k Hproto).
Qed.

(** Headers without any pair, a repeated key, and a value that holds [=]. *)
Lemma parse_cookies_examples :
  parse_cookies "" = ∅ ∧
  parse_cookies ";;" = ∅ ∧
  parse_cookies "a=1; a=2" = {[ "a" := Some "2" ]} ∧
  parse_cookies "k=a=b;  =x" = {[ "k" := Some "a=b" ]}.
Proof. repeat split; by vm_compute. Qed.

(** C1. The specification has the first access fail with 413 when the
    [cookies] header is longer than 1000 characters.  The code throws its
    413 inside the [try] block whose [catch] replaces every exception by an
    empty mapping: for such a header the first access caches and validates
    [{}], and returns it or fails with 400; it never fails with 413. *)
Theorem cookies_overlong_header_is_swallowed ctx schema header :
  c ctx = None →
  schema_of ctx Schemas.cookies = Some schema →
  Headers.get (Request.headers (r ctx)) "cookies" = Some header →
  (1000 < String.length header)%nat →
  cookies_try ctx = Throws (Exception 413) ∧
  cookies ctx =
    (if Zod.success (Zod.safeParse schema ∅)
     then Returns (Some ∅) else Throws (Exception 400),
     set_c ctx ∅) ∧
  (cookies ctx).1 ≠ Throws (Exception 413).
Proof.
  intros Hc Hs Hget Hlen.
  assert (Htry : cookies_try ctx = Throws (Exception 413)).
  { unfold cookies_try. rewrite Hget. simpl.
    destruct (Nat.ltb_spec 1000 (String.length header)); [done|lia]. }
  destruct (cookies_first_access ctx schema Hc Hs) as (parsed & -> & ->).
  rewrite Htry. split; [done|]. split; [done|].
  simpl. by destruct (Zod.success _).
Qed.

(** C4. The specification has the header [a=1; b=2; c=] yield [a], [b] and
    [c] with the values [1], [2] and the empty string.  The pattern [=(.+)]
    needs a character after the [=], so the last pair is not split: the
    code stores the key [c=] with the value [undefined]. *)
Theorem cookies_pair_without_value_keeps_equals ctx schema :
  c ctx = None →
  schema_of ctx Schemas.cookies = Some schema →
  Headers.get (Request.headers (r ctx)) "cookies" = Some "a=1; b=2; c=" →
  let parsed : gmap string (option string) :=
    {[ "a" := Some "1"; "b" := Some "2"; "c=" := None ]} in
  cookies ctx =
    (if Zod.success (Zod.safeParse schema parsed)
     then Returns (Some parsed) else Throws (Exception 400),
     set_c ctx parsed) ∧
  parsed ≠ {[ "a" := Some "1"; "b" := Some "2"; "c" := Some "" ]}.
Proof.
  intros Hc Hs Hget parsed.
  destruct (cookies_first_access ctx schema Hc Hs) as (parsed' & -> & ->).
  unfold cookies_try. rewrite Hget.
  split.
  - by vm_compute (parse_cookies _).
  - intros Heq. apply (f_equal (lookup "c")) in Heq.
    by vm_compute in Heq.
Qed.

End cookies.

Lemma cookies_overlong_header_is_swallowed_witness :
  let ctx := Examples.context None (Examples.with_cookies Examples.overlong)
               (Some (Examples.cookie_schema (Examples.accept "ZodObject"))) in
  (1000 < String.length Examples.overlong)%nat ∧
  cookies ctx = (Returns (Some ∅), set_c ctx ∅).
Proof.
  intros ctx.
  assert (Hlen : (1000 < String.length Examples.overlong)%nat)
    by (vm_compute; lia).
  split; [exact Hlen|].
  exact (proj1 (proj2 (cookies_overlong_header_is_swallowed ctx
    (Examples.accept "ZodObject") Examples.overlong
    eq_refl eq_refl eq_refl Hlen))).
Defined.

Lemma cookies_pair_without_value_keeps_equals_witness :
  let ctx := Examples.context None (Examples.with_cookies "a=1; b=2; c=")
               (Some (Examples.cookie_schema (Examples.accept "ZodObject"))) in
  (cookies ctx).1 =
    Returns (Some {[ "a" := Some "1"; "b" := Some "2"; "c=" := None ]}).
Proof.
  intros ctx.
  exact (f_equal fst (proj1 (cookies_pair_without_value_keeps_equals ctx
    (Examples.accept "ZodObject") eq_refl eq_refl eq_refl))).
Defined.

(** ** Headers *)

Section headers.
Context {ValidatedBody ValidatedCookies ValidatedHeaders ValidatedQuery : Type}.
Abbreviation Ctx :=
  (RequestContext.t ValidatedBody ValidatedCookies ValidatedHeaders ValidatedQuery).
Implicit Types ctx : Ctx.
Implicit Types o : gmap string string.

Lemma headers_first_access ctx :
  h ctx = None →
  let o := headers_loop (Headers.entries (Request.headers (r ctx))) 0 ∅ in
  headers ctx =
    (match schema_of ctx Schemas.headers with
     | Some schema =>
         if Zod.success (Zod.safeParse schema o)
         then Returns o else Throws (Exception 400)
     | None => Returns o
     end, set_h ctx o).
Proof.
  intros Hh o. unfold headers. rewrite Hh. fold o.
  destruct (schema_of ctx Schemas.headers) as [schema|]; [|done].
  by destruct (Zod.success _).
Qed.

Lemma headers_loop_step key value rest num o :
  num ≠ 50%nat →
  headers_loop ((key, value) :: rest) num o =
    headers_loop rest (S num)
      (if negb (prim_truthy nonempty o (toLowerCase key))
       then prim_set o (toLowerCase key) value else o).
Proof. intros Hnum. simpl. by destruct (Nat.eqb_spec num 50). Qed.

Lemma prim_set_size o k v : (size (prim_set o k v) ≤ S (size o))%nat.
Proof.
  unfold prim_set. case_bool_decide; [lia|].
  rewrite map_size_insert. destruct (o !! k); simpl; lia.
Qed.

(** The loop assigns at most once per entry and stops when the counter
    reaches 50. *)
Lemma headers_loop_size entries num o :
  (num ≤ 50)%nat →
  (size (headers_loop entries num o) + num ≤ size o + 50)%nat.
Proof.
  revert num o. induction entries as [|[key value] rest IH]; intros num o Hnum.
  - simpl. lia.
  - simpl. destruct (Nat.eqb_spec num 50) as [->|Hne]; [lia|].
    set (o' := if negb _ then _ else _).
    assert (size o' ≤ S (size o))%nat.
    { subst o'. destruct (negb _); [apply prim_set_size|lia]. }
    specialize (IH (S num) o'). lia.
Qed.

(** Entries after the fiftieth are never looked at. *)
Lemma headers_loop_take entries num o :
  (num ≤ 50)%nat →
  headers_loop entries num o = headers_loop (take (50 - num) entries) num o.
Proof.
  revert num o. induction entries as [|[key value] rest IH]; intros num o Hnum.
  - by rewrite take_nil.
  - simpl. destruct (Nat.eqb_spec num 50) as [->|Hne]; [done|].
    replace (50 - num)%nat with (S (50 - S num)) by lia.
    simpl. destruct (Nat.eqb_spec num 50); [done|].
    apply IH. lia.
Qed.

(** The cached mapping has at most 50 entries. *)
Lemma headers_at_most_50 ctx :
  h ctx = None →
  ∃ o, h (headers ctx).2 = Some o ∧ (size o ≤ 50)%nat.
Proof.
  intros Hh. rewrite (headers_first_access ctx Hh). simpl.
  eexists; split; [reflexivity|].
  pose proof (headers_loop_size (Headers.entries (Request.headers (r ctx)))
                0 ∅ ltac:(lia)) as Hsize.
  rewrite map_size_empty in Hsize. lia.
Qed.

(** Every key of the mapping is the lower-cased name of an entry. *)
Lemma headers_loop_keys entries num o k :
  is_Some (headers_loop entries num o !! k) →
  is_Some (o !! k) ∨ ∃ key value, (key, value) ∈ entries ∧ k = toLowerCase key.
Proof.
  revert num o. induction entries as [|[key value] rest IH]; intros num o; simpl.
  - by left.
  - destruct (num =? 50)%nat; [by left|].
    intros Hk. apply IH in Hk as [Hk|(key' & value' & Hin & ->)].
    + destruct (negb _); [|by left].
      unfold prim_set in Hk. case_bool_decide; [by left|].
      destruct (decide (toLowerCase key = k)) as [<-|Hne].
      * right. exists key, value. split; [left|done].
      * rewrite lookup_insert_ne in Hk by done. by left.
    + right. exists key', value'. split; [by right|done].
Qed.

(** A stored value that is not empty is never replaced. *)
Lemma headers_loop_keeps_nonempty entries num o k v :
  o !! k = Some v → v ≠ "" →
  headers_loop entries num o !! k = Some v.
Proof.
  revert num o. induction entries as [|[key value] rest IH]; intros num o Hk Hv;
    simpl; [done|].
  destruct (num =? 50)%nat; [done|].
  apply IH; [|done].
  destruct (decide (toLowerCase key = k)) as [->|Hne].
  - unfold prim_truthy. rewrite Hk. unfold nonempty.
    destruct (String.eqb_spec v ""); [done|]. by simpl.
  - destruct (negb _); [|done].
    unfold prim_set. case_bool_decide; [done|]. by rewrite lookup_insert_ne.
Qed.

(** An entry leaves the other keys alone. *)
Lemma headers_loop_step_other key value o k :
  toLowerCase key ≠ k →
  (if negb (prim_truthy nonempty o (toLowerCase key))
   then prim_set o (toLowerCase key) value else o) !! k = o !! k.
Proof.
  intros Hne. destruct (negb _); [|done].
  unfold prim_set. case_bool_decide; [done|]. by rewrite lookup_insert_ne.
Qed.

(** Among the first 50 entries, the first one of a name is kept when its
    value is not empty (and the name is not one of [Object.prototype]). *)
Lemma headers_loop_first_nonempty before key value after num o :
  (length before + num < 50)%nat →
  Forall (fun entry => toLowerCase entry.1 ≠ toLowerCase key) before →
  o !! toLowerCase key = None →
  toLowerCase key ∉ object_prototype_keys →
  value ≠ "" →
  headers_loop (before ++ (key, value) :: after) num o !! toLowerCase key
    = Some value.
Proof.
  intros Hlen Hbefore Ho Hkey Hvalue.
  assert (Hproto : toLowerCase key ≠ "__proto__").
  { intros Heq. apply Hkey. rewrite Heq. set_solver. }
  revert num o Hlen Ho.
  induction before as [|[key' value'] before IH]; intros num o Hlen Ho.
  - simpl in Hlen. rewrite app_nil_l, headers_loop_step by lia.
    apply headers_loop_keeps_nonempty; [|done].
    unfold prim_truthy, prim_set. rewrite Ho.
    rewrite !bool_decide_eq_false_2 by done. simpl.
    by rewrite lookup_insert_eq.
  - apply Forall_cons in Hbefore as [Hne Hbefore]. simpl in Hlen, Hne.
    rewrite <- app_comm_cons, headers_loop_step by lia.
    apply IH; [done|lia|].
    by rewrite headers_loop_step_other.
Qed.

(** C6. The specification has the first-seen value of a lower-cased key
    kept and every later duplicate ignored.  The code tests the stored
    value for truth, not for presence: a first value that is the empty
    string is replaced by the next entry of the same name. *)
Theorem headers_empty_first_value_is_replaced ctx key value :
  h ctx = None →
  Headers.entries (Request.headers (r ctx)) = [(key, ""); (key, value)] →
  toLowerCase key ∉ object_prototype_keys →
  let o : gmap string string := {[ toLowerCase key := value ]} in
  headers ctx =
    (match schema_of ctx Schemas.headers with
     | Some schema =>
         if Zod.success (Zod.safeParse schema o)
         then Returns o else Throws (Exception 400)
     | None => Returns o
     end, set_h ctx o).
Proof.
  intros Hh Hentries Hkey o.
  rewrite (headers_first_access ctx Hh), Hentries.
  assert (Hne : toLowerCase key ≠ "__proto__").
  { intros Heq. apply Hkey. rewrite Heq. set_solver. }
  assert (Hloop : headers_loop [(key, ""); (key, value)] 0 ∅ = o).
  { rewrite headers_loop_step by done.
    assert (Hfirst : (if negb (prim_truthy nonempty (∅ : gmap string string)
                                 (toLowerCase key))
                      then prim_set ∅ (toLowerCase key) "" else ∅)
                     = ({[ toLowerCase key := "" ]} : gmap string string)).
    { unfold prim_truthy, prim_set. rewrite lookup_empty.
      by rewrite !bool_decide_eq_false_2 by done. }
    rewrite Hfirst, headers_loop_step by done.
    unfold prim_truthy, prim_set. rewrite lookup_singleton_eq.
    rewrite bool_decide_eq_false_2 by done.
    cbn [negb nonempty String.eqb headers_loop].
    subst o. by rewrite insert_singleton_eq. }
  by rewrite Hloop.
Qed.

(** A header named as a property of [Object.prototype] is never stored:
    the test reads the inherited property, which is truthy. *)
Lemma headers_inherited_name_is_dropped key value :
  toLowerCase key ∈ object_prototype_keys →
  headers_loop [(key, value)] 0 ∅ = ∅.
Proof.
  intros Hkey. rewrite headers_loop_step by done.
  unfold prim_truthy. rewrite lookup_empty.
  by rewrite bool_decide_eq_true_2.
Qed.

End headers.

Lemma headers_empty_first_value_is_replaced_witness :
  let req := Examples.request (fun _ => None)
               [("set-cookie", ""); ("set-cookie", "a=1")]
               false Examples.silent (Returns Examples.silent) in
  let ctx := Examples.context None req None in
  (headers ctx).1 = Returns {[ "set-cookie" := "a=1" ]}.
Proof.
  intros req ctx.
  refine (f_equal fst (headers_empty_first_value_is_replaced ctx
    "set-cookie" "a=1" eq_refl eq_refl _)).
  vm_compute. intros Hin. repeat (inversion Hin as [|? ? ? Hin']; clear Hin; rename Hin' into Hin).
Defined.

(** ** Query *)

Section query.
Context {ValidatedBody ValidatedCookies ValidatedHeaders ValidatedQuery : Type}.
Context `{Globals}.
Abbreviation Ctx :=
  (RequestContext.t ValidatedBody ValidatedCookies ValidatedHeaders ValidatedQuery).
Implicit Types ctx : Ctx.
Implicit Types o : object JsonValue.

Lemma query_first_access ctx schema :
  q ctx = None →
  schema_of ctx Schemas.query = Some schema →
  query ctx =
    (match (query_parse (qs ctx)).2 with
     | Some e => Throws e
     | None =>
         if Zod.success (Zod.safeParse schema (query_parse (qs ctx)).1)
         then Returns (Some (query_parse (qs ctx)).1)
         else Throws (Exception 400)
     end, set_q ctx (query_parse (qs ctx)).1).
Proof.
  intros Hq Hs. unfold query. rewrite Hq, Hs.
  destruct (query_parse (qs ctx)) as [o [e|]]; simpl; [done|].
  by destruct (Zod.success _).
Qed.

(** One turn of the loop, by the shape of the segment. *)
Lemma query_loop_skip segment rest o :
  (destructure2 (split (char "=") segment)).1 = Some "" →
  query_loop (segment :: rest) o = query_loop rest o.
Proof.
  intros Hk. cbn [query_loop]. destruct (destructure2 _) as [k v].
  simpl in Hk. by subst k.
Qed.

Lemma query_loop_flag segment rest o key :
  destructure2 (split (char "=") segment) = (Some key, None) →
  key ≠ "" →
  query_loop (segment :: rest) o = query_loop rest (obj_set o key (JBool true)).
Proof. intros Hd Hk. cbn [query_loop]. rewrite Hd. by destruct key. Qed.

Lemma query_loop_json segment rest o key value j :
  destructure2 (split (char "=") segment) = (Some key, Some value) →
  key ≠ "" →
  outcome_bind (decodeURIComponent value) JSON_parse = Returns j →
  query_loop (segment :: rest) o = query_loop rest (obj_set o key j).
Proof.
  intros Hd Hk Hj. cbn [query_loop]. rewrite Hd, Hj. by destruct key.
Qed.

Lemma query_loop_text segment rest o key value e x :
  destructure2 (split (char "=") segment) = (Some key, Some value) →
  key ≠ "" →
  outcome_bind (decodeURIComponent value) JSON_parse = Throws e →
  decodeURIComponent value = Returns x →
  query_loop (segment :: rest) o = query_loop rest (obj_set o key (JStr x)).
Proof.
  intros Hd Hk Hj Hx. cbn [query_loop]. rewrite Hd, Hj, Hx. by destruct key.
Qed.

(** A value that cannot be decoded ends the loop with the [URIError] of the
    second [decodeURIComponent], which nothing catches. *)
Lemma query_loop_uncaught segment rest o key value e :
  destructure2 (split (char "=") segment) = (Some key, Some value) →
  key ≠ "" →
  decodeURIComponent value = Throws e →
  query_loop (segment :: rest) o = (o, Some e).
Proof.
  intros Hd Hk Hx. cbn [query_loop]. rewrite Hd, Hx. by destruct key.
Qed.

(** C5. The specification has a segment split on its first [=], so that a
    value may contain [=].  The code takes the first two parts of
    [split('=')]: the value ends at the second [=], and [a=b=c] gives [a]
    the value [b]. *)
Theorem query_value_ends_at_second_equals ctx schema e :
  q ctx = None →
  schema_of ctx Schemas.query = Some schema →
  qs ctx = Some "a=b=c" →
  decodeURIComponent "b" = Returns "b" →
  JSON_parse "b" = Throws e →
  let o : object JsonValue := Object {[ "a" := JStr "b" ]} ObjectPrototype in
  query ctx =
    (if Zod.success (Zod.safeParse schema o)
     then Returns (Some o) else Throws (Exception 400),
     set_q ctx o) ∧
  o ≠ Object {[ "a" := JStr "b=c" ]} ObjectPrototype.
Proof.
  intros Hq Hs Hqs Hdec Hparse o.
  rewrite (query_first_access ctx schema Hq Hs), Hqs.
  assert (Hloop : query_parse (Some "a=b=c") = (o, None)).
  { unfold query_parse.
    change (split (char "&") "a=b=c") with ["a=b=c"].
    rewrite (query_loop_text "a=b=c" [] empty_object "a" "b" e "b");
      [| done | done | by rewrite Hdec | done].
    by vm_compute. }
  rewrite Hloop. simpl. split; [done|].
  intros Heq. apply (f_equal (fun x => own x !! "a")) in Heq.
  simpl in Heq. rewrite !lookup_singleton_eq in Heq. discriminate.
Qed.

End query.

Lemma query_value_ends_at_second_equals_witness :
  let bundle : Examples.bundle_type :=
    {| Schemas.body := None; Schemas.cookies := None; Schemas.headers := None;
       Schemas.query := Some (Examples.accept "ZodObject");
       Schemas.transform := false |} in
  let ctx := Examples.context (Some "a=b=c")
               (Examples.with_cookies "") (Some bundle) in
  (query (H := Fragment.globals) ctx).1 =
    Returns (Some (Object {[ "a" := JStr "b" ]} ObjectPrototype)).
Proof.
  intros bundle ctx.
  exact (f_equal fst (proj1 (query_value_ends_at_second_equals
    (H := Fragment.globals) ctx (Examples.accept "ZodObject")
    (NativeError "SyntaxError") eq_refl eq_refl eq_refl eq_refl eq_refl))).
Defined.

(** The example of the specification: numbers, booleans and quoted strings
    are decoded as JSON, and a key without [=] is a flag. *)
Lemma query_coercion_example :
  let bundle : Examples.bundle_type :=
    {| Schemas.body := None; Schemas.cookies := None; Schemas.headers := None;
       Schemas.query := Some (Examples.accept "ZodObject");
       Schemas.transform := false |} in
  let ctx := Examples.context (Some "a=1&b=true&c=%22x%22&d")
               (Examples.with_cookies "") (Some bundle) in
  (query (H := Fragment.globals) ctx).1 =
    Returns (Some (Object {[ "a" := JNum 1; "b" := JBool true;
                             "c" := JStr "x"; "d" := JBool true ]}
                          ObjectPrototype)).
Proof. by vm_compute. Qed.

(** A value with a malformed escape: the [URIError] of the second
    [decodeURIComponent] leaves the getter as it is, after the slot was
    set; the next access returns what was parsed so far, which no schema
    has seen. *)
Lemma query_malformed_escape_example :
  let bundle : Examples.bundle_type :=
    {| Schemas.body := None; Schemas.cookies := None; Schemas.headers := None;
       Schemas.query := Some (Examples.reject "ZodObject");
       Schemas.transform := false |} in
  let ctx := Examples.context (Some "a=1&b=%&c=2")
               (Examples.with_cookies "") (Some bundle) in
  (query (H := Fragment.globals) ctx).1 = Throws (NativeError "URIError") ∧
  (query (H := Fragment.globals) (query (H := Fragment.globals) ctx).2).1
    = Returns (Some (Object {[ "a" := JNum 1 ]} ObjectPrototype)).
Proof. split; by vm_compute. Qed.

(** ** Cache slots *)

Section slots.
Context {ValidatedBody ValidatedCookies ValidatedHeaders ValidatedQuery : Type}.
Context `{Globals}.
Abbreviation Ctx :=
  (RequestContext.t ValidatedBody ValidatedCookies ValidatedHeaders ValidatedQuery).
Implicit Types ctx : Ctx.

(** A set slot is returned as it is, and the context is left alone. *)
Lemma cookies_cached ctx v :
  c ctx = Some v → cookies ctx = (Returns (Some v), ctx).
Proof. intros Hc. unfold cookies. by rewrite Hc. Qed.

Lemma headers_cached ctx v :
  h ctx = Some v → headers ctx = (Returns v, ctx).
Proof. intros Hh. unfold headers. by rewrite Hh. Qed.

Lemma query_cached ctx v :
  q ctx = Some v → query ctx = (Returns (Some v), ctx).
Proof. intros Hq. unfold query. by rewrite Hq. Qed.

(** After one access, a further access returns the slot and changes
    nothing. *)
Lemma cookies_settled ctx :
  cookies (cookies ctx).2 = (Returns (c (cookies ctx).2), (cookies ctx).2).
Proof.
  destruct (c ctx) as [v|] eqn:Hc.
  { rewrite (cookies_cached ctx v Hc). simpl. rewrite Hc.
    by apply cookies_cached. }
  destruct (schema_of ctx Schemas.cookies) as [schema|] eqn:Hs.
  - destruct (cookies_first_access ctx schema Hc Hs) as (parsed & _ & ->).
    simpl. by apply cookies_cached.
  - assert (Hsame : cookies ctx = (Returns (c ctx), ctx)).
    { unfold cookies. by rewrite Hc, Hs. }
    by rewrite Hsame.
Qed.

Lemma headers_settled ctx :
  ∃ o, h (headers ctx).2 = Some o ∧
       headers (headers ctx).2 = (Returns o, (headers ctx).2).
Proof.
  destruct (h ctx) as [v|] eqn:Hh.
  { exists v. rewrite (headers_cached ctx v Hh). simpl.
    split; [done|]. by apply headers_cached. }
  rewrite (headers_first_access ctx Hh). simpl.
  eexists; split; [reflexivity|]. by apply headers_cached.
Qed.

Lemma query_settled ctx :
  query (query ctx).2 = (Returns (q (query ctx).2), (query ctx).2).
Proof.
  destruct (q ctx) as [v|] eqn:Hq.
  { rewrite (query_cached ctx v Hq). simpl. rewrite Hq.
    by apply query_cached. }
  destruct (schema_of ctx Schemas.query) as [schema|] eqn:Hs.
  - rewrite (query_first_access ctx schema Hq Hs). simpl.
    by apply query_cached.
  - assert (Hsame : query ctx = (Returns (q ctx), ctx)).
    { unfold query. by rewrite Hq, Hs. }
    by rewrite Hsame.
Qed.

(** A value returned by the first access is the slot. *)
Lemma cookies_returns_slot ctx v :
  (cookies ctx).1 = Returns v → v = c (cookies ctx).2.
Proof.
  destruct (c ctx) as [v'|] eqn:Hc.
  { rewrite (cookies_cached ctx v' Hc). simpl. congruence. }
  destruct (schema_of ctx Schemas.cookies) as [schema|] eqn:Hs.
  - destruct (cookies_first_access ctx schema Hc Hs) as (parsed & _ & ->).
    simpl. destruct (Zod.success _); congruence.
  - unfold cookies. rewrite Hc, Hs. simpl. congruence.
Qed.

Lemma headers_returns_slot ctx v :
  (headers ctx).1 = Returns v → h (headers ctx).2 = Some v.
Proof.
  destruct (h ctx) as [v'|] eqn:Hh.
  { rewrite (headers_cached ctx v' Hh). simpl. congruence. }
  rewrite (headers_first_access ctx Hh). simpl.
  destruct (schema_of ctx Schemas.headers) as [schema|]; [|congruence].
  destruct (Zod.success _); congruence.
Qed.

Lemma query_returns_slot ctx v :
  (query ctx).1 = Returns v → v = q (query ctx).2.
Proof.
  destruct (q ctx) as [v'|] eqn:Hq.
  { rewrite (query_cached ctx v' Hq). simpl. congruence. }
  destruct (schema_of ctx Schemas.query) as [schema|] eqn:Hs.
  - rewrite (query_first_access ctx schema Hq Hs). simpl.
    destruct (query_parse (qs ctx)).2; [congruence|].
    destruct (Zod.success _); congruence.
  - unfold query. rewrite Hq, Hs. simpl. congruence.
Qed.

(** Repeating an access that returns and changes nothing. *)
Lemma accesses_settled {A} (get : Ctx → outcome A * Ctx) ctx v n :
  get ctx = (Returns v, ctx) →
  accesses get n ctx = (replicate n (Returns v), ctx).
Proof.
  intros Hget. induction n as [|n IH]; [done|].
  simpl. by rewrite Hget, IH.
Qed.

Lemma accesses_after_first {A} (get : Ctx → outcome A * Ctx) ctx v n :
  get (get ctx).2 = (Returns v, (get ctx).2) →
  accesses get (S n) ctx = ((get ctx).1 :: replicate n (Returns v), (get ctx).2).
Proof.
  intros Hget. simpl. destruct (get ctx) as [res ctx1]. simpl in *.
  by rewrite (accesses_settled get ctx1 v n Hget).
Qed.

(** C7. Of [n ≥ 2] accesses in a row to [cookies], [headers] or [query],
    every one after the first returns the same value, which is the slot as
    the first access left it; the first access returns that value too when
    it returns; the slot is the same after the last access as after the
    first; and a slot that is set, be it to an empty mapping, is returned as
    it is by an access that changes nothing. *)
Theorem cached_accessors_repeat ctx (n k : nat) :
  (2 ≤ n)%nat → (1 ≤ k < n)%nat →
  ((accesses cookies n ctx).1 !! k = Some (Returns (c (cookies ctx).2)) ∧
   c (accesses cookies n ctx).2 = c (cookies ctx).2 ∧
   (∀ v, (cookies ctx).1 = Returns v → v = c (cookies ctx).2) ∧
   (∀ v, c ctx = Some v → cookies ctx = (Returns (Some v), ctx))) ∧
  (∃ o, h (headers ctx).2 = Some o ∧
        (accesses headers n ctx).1 !! k = Some (Returns o) ∧
        h (accesses headers n ctx).2 = Some o ∧
        (∀ v, (headers ctx).1 = Returns v → v = o) ∧
        (∀ v, h ctx = Some v → headers ctx = (Returns v, ctx))) ∧
  ((accesses query n ctx).1 !! k = Some (Returns (q (query ctx).2)) ∧
   q (accesses query n ctx).2 = q (query ctx).2 ∧
   (∀ v, (query ctx).1 = Returns v → v = q (query ctx).2) ∧
   (∀ v, q ctx = Some v → query ctx = (Returns (Some v), ctx))).
Proof.
  intros Hn Hk.
  destruct n as [|n]; [lia|]. destruct k as [|k]; [lia|].
  assert (Hlater : ∀ {A} (y : outcome A), replicate n y !! k = Some y).
  { intros A y. apply lookup_replicate_2. lia. }
  split; [|split].
  - rewrite (accesses_after_first cookies ctx _ n (cookies_settled ctx)).
    simpl. split; [apply Hlater|]. split; [done|].
    split; [apply cookies_returns_slot|apply cookies_cached].
  - destruct (headers_settled ctx) as (o & Hslot & Hget).
    exists o. rewrite (accesses_after_first headers ctx _ n Hget).
    simpl. split; [done|]. split; [apply Hlater|]. split; [done|].
    split; [|apply headers_cached].
    intros v Hv. apply headers_returns_slot in Hv. congruence.
  - rewrite (accesses_after_first query ctx _ n (query_settled ctx)).
    simpl. split; [apply Hlater|]. split; [done|].
    split; [apply query_returns_slot|apply query_cached].
Qed.

(** The same for a slot that holds an empty mapping. *)
Lemma empty_slots_are_set ctx :
  c ctx = Some ∅ → h ctx = Some ∅ → q ctx = Some empty_object →
  cookies ctx = (Returns (Some ∅), ctx) ∧
  headers ctx = (Returns ∅, ctx) ∧
  query ctx = (Returns (Some empty_object), ctx).
Proof.
  intros Hc Hh Hq.
  by rewrite (cookies_cached ctx _ Hc), (headers_cached ctx _ Hh),
    (query_cached ctx _ Hq).
Qed.

(** C2. The specification has no access ever return a value that failed
    its schema.  The first access to a value that fails its schema does
    fail with 400, for all four fields.  But the three cached accessors
    store the value in the slot before they validate it, so the next access
    returns the very value that was rejected. *)
Theorem rejected_value_is_returned_by_next_access ctx :
  (∀ schema parsed,
     c ctx = None →
     schema_of ctx Schemas.cookies = Some schema →
     parsed = match cookies_try ctx with Returns o => o | Throws _ => ∅ end →
     Zod.success (Zod.safeParse schema parsed) = false →
     (cookies ctx).1 = Throws (Exception 400) ∧
     (cookies (cookies ctx).2).1 = Returns (Some parsed)) ∧
  (∀ schema parsed,
     h ctx = None →
     schema_of ctx Schemas.headers = Some schema →
     parsed = headers_loop (Headers.entries (Request.headers (r ctx))) 0 ∅ →
     Zod.success (Zod.safeParse schema parsed) = false →
     (headers ctx).1 = Throws (Exception 400) ∧
     (headers (headers ctx).2).1 = Returns parsed) ∧
  (∀ schema parsed,
     q ctx = None →
     schema_of ctx Schemas.query = Some schema →
     query_parse (qs ctx) = (parsed, None) →
     Zod.success (Zod.safeParse schema parsed) = false →
     (query ctx).1 = Throws (Exception 400) ∧
     (query (query ctx).2).1 = Returns (Some parsed)) ∧
  (∀ schema decoded ctx',
     schema_of ctx Schemas.body = Some schema →
     body_try ctx schema = (Returns decoded, ctx') →
     Zod.success (Zod.safeParse schema decoded) = false →
     (body ctx).1 = Throws (Exception 400)).
Proof.
  split; [|split; [|split]].
  - intros schema parsed Hc Hs -> Hbad.
    destruct (cookies_first_access ctx schema Hc Hs) as (? & -> & Hfirst).
    rewrite cookies_settled, Hfirst, Hbad. done.
  - intros schema parsed Hh Hs -> Hbad.
    rewrite (headers_first_access ctx Hh), Hs, Hbad. cbn [fst snd].
    split; [done|]. by rewrite (headers_cached (set_h ctx _) _ eq_refl).
  - intros schema parsed Hq Hs Hparse Hbad.
    rewrite query_settled, (query_first_access ctx schema Hq Hs), Hparse.
    simpl. by rewrite Hbad.
  - intros schema decoded ctx' Hs Htry Hbad.
    unfold body. rewrite Hs, Htry.
    destruct (Zod.safeParse schema decoded); [discriminate|done].
Qed.

End slots.

(** ** Body *)

Section body.
Context {ValidatedBody ValidatedCookies ValidatedHeaders ValidatedQuery : Type}.
Abbreviation Ctx :=
  (RequestContext.t ValidatedBody ValidatedCookies ValidatedHeaders ValidatedQuery).
Implicit Types ctx : Ctx.

(** *** The deadline *)

Lemma deadline_expired {A} (promise : Promise A) (delay : N) :
  settles_within promise delay = false →
  resolveWithDeadline promise delay = Throws DeadlineError.
Proof. destruct promise; simpl; intros Hlate; by rewrite ?Hlate. Qed.

Lemma deadline_rejected {A} (promise : Promise A) (delay t : N) e :
  promise = Rejects t e → (t < delay)%N →
  resolveWithDeadline promise delay = Throws e.
Proof.
  intros -> Ht. simpl. by destruct (N.ltb_spec t delay); [|lia].
Qed.

Lemma deadline_fulfilled {A} (promise : Promise A) (delay t : N) a :
  promise = Fulfils t a → (t < delay)%N →
  resolveWithDeadline promise delay = Returns a.
Proof.
  intros -> Ht. simpl. by destruct (N.ltb_spec t delay); [|lia].
Qed.

(** *** The [try] block

    What is read, by the three tests in the order of the code. *)
Lemma body_try_text ctx schema :
  wants_text (Zod._def schema) = true →
  body_try ctx schema =
    (outcome_map BText (resolveWithDeadline (Body.text (Request.body (r ctx))) 3000),
     set_r ctx (Request.called (Request.Read Body.RText) (r ctx))).
Proof. intros Hw. unfold body_try. by rewrite Hw. Qed.

Lemma body_try_form ctx schema :
  wants_text (Zod._def schema) = false →
  transforms ctx = true →
  Headers.get (Request.headers (r ctx)) "content-type"
    = Some "multipart/form-data" →
  body_try ctx schema =
    (outcome_bind (resolveWithDeadline (Body.formData (Request.body (r ctx))) 3000)
       (fun fd => outcome_map BForm (flatten fd)),
     set_r ctx (Request.called (Request.Read Body.RFormData) (r ctx))).
Proof.
  intros Hw Ht Hct. unfold body_try. rewrite Hw, Ht.
  by rewrite bool_decide_eq_true_2.
Qed.

Lemma body_try_json ctx schema :
  wants_text (Zod._def schema) = false →
  transforms ctx = false ∨
  Headers.get (Request.headers (r ctx)) "content-type"
    ≠ Some "multipart/form-data" →
  body_try ctx schema =
    (outcome_map BJson (resolveWithDeadline (Body.json (Request.body (r ctx))) 3000),
     set_r ctx (Request.called (Request.Read Body.RJson) (r ctx))).
Proof.
  intros Hw Hor. unfold body_try. rewrite Hw.
  destruct Hor as [->|Hct]; [done|].
  rewrite (bool_decide_eq_false_2 _ Hct). by rewrite andb_false_r.
Qed.

(** The test on [_def], as a proposition. *)
Lemma wants_text_spec (d : Zod.ZodDef) :
  wants_text d = true ↔
  Zod.typeName d = "ZodString" ∨
  (Zod.typeName d = "ZodUnion" ∧
   Forall (fun member => Zod.typeName member = "ZodString") (Zod.options d)).
Proof.
  unfold wants_text.
  rewrite orb_true_iff, andb_true_iff, !String.eqb_eq.
  rewrite forallb_forall, Forall_forall.
  setoid_rewrite String.eqb_eq. setoid_rewrite list_elem_of_In.
  done.
Qed.

(** The [try] block makes one call, and what that read throws under a
    deadline of 3000, the block throws. *)
Lemma body_try_one_read ctx schema :
  ∃ k, k ∈ [Body.RText; Body.RFormData; Body.RJson] ∧
    (body_try ctx schema).2 = set_r ctx (Request.called (Request.Read k) (r ctx)) ∧
    ∀ e, resolveWithDeadline (Body.settling (Request.body (r ctx)) k) 3000
           = Throws e →
         (body_try ctx schema).1 = Throws e.
Proof.
  assert (Hthrows : ∀ {A B} (f : A → outcome B) (promise : Promise A) e,
            resolveWithDeadline (settlement promise) 3000 = Throws e →
            outcome_bind (resolveWithDeadline promise 3000) f = Throws e).
  { intros A B f promise e.
    destruct promise as [t a|t e'|]; simpl; try destruct (t <? 3000)%N;
      intros He; by simplify_eq. }
  unfold body_try.
  destruct (wants_text _).
  - exists Body.RText. split; [set_solver|]. split; [done|].
    intros e He. apply (Hthrows _ _ (fun x => Returns (BText x))) in He.
    simpl. by destruct (resolveWithDeadline (Body.text _) 3000).
  - destruct (_ && _).
    + exists Body.RFormData. split; [set_solver|]. split; [done|].
      intros e He. by apply Hthrows.
    + exists Body.RJson. split; [set_solver|]. split; [done|].
      intros e He. apply (Hthrows _ _ (fun x => Returns (BJson x))) in He.
      simpl. by destruct (resolveWithDeadline (Body.json _) 3000).
Qed.

(** C3. Without a body schema the accessor returns [undefined] and leaves
    the context, the request and its record of calls as they were.  With a
    body schema it makes exactly one reading call; when that read has not
    settled within 3000 ms the accessor fails with 413, and when it rejects
    earlier with anything but a deadline error the accessor fails with
    400. *)
Theorem body_read_is_bounded ctx :
  (schema_of ctx Schemas.body = None → body ctx = (Returns None, ctx)) ∧
  (∀ schema,
     schema_of ctx Schemas.body = Some schema →
     ∃ k, k ∈ [Body.RText; Body.RFormData; Body.RJson] ∧
       Request.calls (r (body ctx).2)
         = Request.Read k :: Request.calls (r ctx) ∧
       let promise := Body.settling (Request.body (r ctx)) k in
       (settles_within promise 3000 = false →
        (body ctx).1 = Throws (Exception 413)) ∧
       (∀ t e, promise = Rejects t e → (t < 3000)%N → e ≠ DeadlineError →
               (body ctx).1 = Throws (Exception 400))).
Proof.
  split.
  - intros Hs. unfold body. by rewrite Hs.
  - intros schema Hs.
    destruct (body_try_one_read ctx schema) as (k & Hk & Hctx & Hres).
    exists k. split; [done|].
    unfold body. rewrite Hs.
    destruct (body_try ctx schema) as [res ctx'] eqn:Htry. simpl in Hctx, Hres.
    split; [|split].
    + destruct res as [decoded|err]; [|by subst ctx'].
      destruct (Zod.safeParse schema decoded); by subst ctx'.
    + intros Hlate. by rewrite (Hres _ (deadline_expired _ _ Hlate)).
    + intros t e Hrej Ht Hne.
      rewrite (Hres _ (deadline_rejected _ _ t e Hrej Ht)). by destruct e.
Qed.

(** *** Flattening form data *)

Lemma obj_set_other {V} `{Assignable V} (o : object V) key v k :
  k ≠ "__proto__" →
  own (obj_set o key v) !! k = <[key:=v]> (own o) !! k.
Proof.
  intros Hk. unfold obj_set.
  destruct (bool_decide (key = "__proto__") && _ && _) eqn:Hcase; [|done].
  apply andb_true_iff in Hcase as [Hcase _].
  apply andb_true_iff in Hcase as [Hkey _].
  apply bool_decide_eq_true_1 in Hkey as ->.
  rewrite lookup_insert_ne by done.
  destruct (is_null v); [done|]. by destruct (is_object v).
Qed.

Lemma flatten_from_snoc (entries : FormData) key value
    (o : object FormDataEntryValue) :
  flatten_from (entries ++ [(key, value)])%list o
    = outcome_bind (flatten_from entries o) (fun o' => form_set o' key value).
Proof.
  revert o. induction entries as [|[key' value'] entries IH]; intros o; simpl.
  - by destruct (form_set o key value).
  - destruct (form_set o key' value') as [o'|e]; simpl; [apply IH|done].
Qed.

(** Without an entry named [__proto__] the loop never throws and builds
    the plain mapping in which the last entry of a key decides its value. *)
Lemma flatten_plain (entries : FormData) :
  "__proto__" ∉ entries.*1 →
  flatten entries
    = Returns (Object (list_to_map (reverse entries)) ObjectPrototype).
Proof.
  induction entries as [|[key value] entries IH] using rev_ind; [done|].
  rewrite fmap_app, not_elem_of_app. intros [Hentries Hkey].
  unfold flatten in *. rewrite flatten_from_snoc, (IH Hentries). simpl.
  unfold form_set, obj_set. simpl.
  rewrite bool_decide_eq_false_2 by (intros ->; apply Hkey; simpl; left).
  simpl. by rewrite reverse_snoc.
Qed.

(** In general: when the loop returns, the object owns the last entry of
    every key but [__proto__] and nothing under [__proto__], and its
    prototype is [Object.prototype] unless an entry named [__proto__] made
    a [File] the prototype; when it throws, it throws the [TypeError] of an
    assignment, after such an entry. *)
Lemma flatten_cases (entries : FormData) :
  match flatten entries with
  | Returns o =>
      own o = delete "__proto__" (list_to_map (reverse entries)) ∧
      (prototype o = ObjectPrototype ∨
       ∃ f, ("__proto__", EntryFile f) ∈ entries ∧
            prototype o = ValuePrototype (EntryFile f))
  | Throws e =>
      e = NativeError "TypeError" ∧ ∃ f, ("__proto__", EntryFile f) ∈ entries
  end.
Proof.
  induction entries as [|[key value] entries IH] using rev_ind.
  - simpl. split; [|by left]. by rewrite delete_empty.
  - unfold flatten in *. rewrite flatten_from_snoc.
    destruct (flatten_from entries empty_object) as [o'|e]; simpl.
    2:{ destruct IH as [-> [f Hf]]. split; [done|].
        exists f. apply elem_of_app. by left. }
    destruct IH as [Hown Hproto].
    assert (Hnone : own o' !! "__proto__" = None).
    { rewrite Hown. apply lookup_delete_eq. }
    assert (Hreach : reaches_accessor (prototype o') = true).
    { by destruct Hproto as [->|(f & _ & ->)]. }
    assert (Hkeep : prototype o' = ObjectPrototype ∨
                    ∃ f, ("__proto__", EntryFile f) ∈ (entries ++ [(key, value)])%list ∧
                         prototype o' = ValuePrototype (EntryFile f)).
    { destruct Hproto as [Hp|(f & Hf & Hp)]; [by left|].
      right. exists f. split; [|done]. apply elem_of_app. by left. }
    assert (Hset : match obj_set o' key value with
                   | o =>
                       own o = delete "__proto__"
                                 (list_to_map (reverse (entries ++ [(key, value)]))) ∧
                       (prototype o = ObjectPrototype ∨
                        ∃ f, ("__proto__", EntryFile f)
                               ∈ (entries ++ [(key, value)])%list ∧
                             prototype o = ValuePrototype (EntryFile f))
                   end).
    { rewrite reverse_snoc. simpl. unfold obj_set.
      destruct (decide (key = "__proto__")) as [->|Hkey].
      - rewrite bool_decide_eq_true_2 by done.
        rewrite (bool_decide_eq_false_2 (is_Some _))
          by (rewrite Hnone; by intros [? ?]).
        rewrite Hreach. simpl. rewrite delete_insert_eq.
        destruct value as [x|f]; simpl; [done|].
        split; [done|]. right. exists f. split; [|done].
        apply elem_of_app. right. apply list_elem_of_singleton. done.
      - rewrite bool_decide_eq_false_2 by done. simpl.
        split; [|done]. by rewrite delete_insert_ne, Hown. }
    unfold form_set.
    destruct (prototype o') as [| |[x|f]] eqn:Hp; try exact Hset.
    destruct (_ && _); [|exact Hset].
    split; [done|].
    destruct Hkeep as [?|(f' & Hf' & ?)]; [done|]. by exists f'.
Qed.

(** Once a [File] is the prototype, the assignment to one of its getters
    throws. *)
Lemma flatten_after_file_prototype (f : File) (x : string) :
  flatten [("__proto__", EntryFile f); ("name", EntryString x)]
    = Throws (NativeError "TypeError").
Proof. reflexivity. Qed.

(** The accessor after a read that arrived in time. *)
Lemma body_after_read ctx schema decoded ctx' :
  schema_of ctx Schemas.body = Some schema →
  body_try ctx schema = (Returns decoded, ctx') →
  body ctx =
    (match Zod.safeParse schema decoded with
     | Zod.ParseSuccess data => Returns (Some data)
     | Zod.ParseError => Throws (Exception 400)
     end, ctx').
Proof.
  intros Hs Htry. unfold body. rewrite Hs, Htry.
  by destruct (Zod.safeParse schema decoded).
Qed.

Lemma body_calls ctx schema res ctx' :
  schema_of ctx Schemas.body = Some schema →
  body_try ctx schema = (res, ctx') →
  (body ctx).2 = ctx'.
Proof.
  intros Hs Htry. unfold body. rewrite Hs, Htry.
  destruct res as [decoded|err]; [|done].
  by destruct (Zod.safeParse schema decoded).
Qed.


(** *** The raw readers *)

Lemma or_null_failed {A} (promise : Promise A) (delay : N) :
  settles_within promise delay = false ∨ (∃ t e, promise = Rejects t e) →
  or_null (resolveWithDeadline promise delay) = None.
Proof.
  intros [Hlate|(t & e & ->)].
  - by rewrite (deadline_expired _ _ Hlate).
  - simpl. by destruct (t <? delay)%N.
Qed.

(** What is asked of a raw reader [read] whose method is [pick]: it never
    throws; its deadline defaults to 2500; on an unused request it reads
    the request itself, on a used one a copy, and the request is not read;
    and when the read fails, by the deadline or by a rejection, or when the
    copy cannot be made, the result is [null]. *)
Local Abbreviation best_effort read pick k :=
  (∀ (deadline : option N) ctx,
     let limit := default 2500%N deadline in
     (∀ e, (read deadline ctx).1 ≠ Throws e) ∧
     read None ctx = read (Some 2500%N) ctx ∧
     (Request.bodyUsed (r ctx) = false →
      Request.calls (r (read deadline ctx).2)
        = Request.Read k :: Request.calls (r ctx) ∧
      (read deadline ctx).1
        = Returns (or_null (resolveWithDeadline
                              (pick (Request.body (r ctx))) limit)) ∧
      (settles_within (pick (Request.body (r ctx))) limit = false ∨
       (∃ t e, pick (Request.body (r ctx)) = Rejects t e) →
       (read deadline ctx).1 = Returns None)) ∧
     (Request.bodyUsed (r ctx) = true →
      Request.calls (r (read deadline ctx).2)
        = Request.Clone :: Request.calls (r ctx) ∧
      Request.bodyUsed (r (read deadline ctx).2) = true ∧
      (∀ e, Request.copy (r ctx) = Throws e →
            (read deadline ctx).1 = Returns None) ∧
      (∀ copy, Request.copy (r ctx) = Returns copy →
         (read deadline ctx).1
           = Returns (or_null (resolveWithDeadline (pick copy) limit)) ∧
         (settles_within (pick copy) limit = false ∨
          (∃ t e, pick copy = Rejects t e) →
          (read deadline ctx).1 = Returns None)))).

Local Ltac best_effort_proof read :=
  intros deadline ctx limit; unfold read; fold limit;
  unfold Request.clone, Request.blob, Request.arrayBuffer, Request.formData;
  split; [|split; [|split]];
  [ intros e; destruct (Request.bodyUsed (r ctx));
      [destruct (Request.copy (r ctx))|]; discriminate
  | reflexivity
  | intros ->; split; [done|]; split; [done|];
    intros Hfail; by rewrite (or_null_failed _ _ Hfail)
  | intros Hused; rewrite Hused; split;
      [by destruct (Request.copy (r ctx))|];
    split; [destruct (Request.copy (r ctx)); simpl; by rewrite Hused|];
    split;
      [ by intros e ->
      | intros copy ->; split; [done|];
        intros Hfail; by rewrite (or_null_failed _ _ Hfail) ] ].

(** C9. [blob()], [buffer()] and [formData()] never throw.  Each takes an
    optional deadline that defaults to 2500; reads the request itself when
    its body is unused and a copy of it when the body is used; and returns
    [null] when the read misses the deadline or rejects, or when the copy
    cannot be made. *)
Theorem raw_readers_never_throw :
  best_effort (blob (ValidatedBody := ValidatedBody)
                 (ValidatedCookies := ValidatedCookies)
                 (ValidatedHeaders := ValidatedHeaders)
                 (ValidatedQuery := ValidatedQuery))
    Body.blob Body.RBlob ∧
  best_effort (buffer (ValidatedBody := ValidatedBody)
                 (ValidatedCookies := ValidatedCookies)
                 (ValidatedHeaders := ValidatedHeaders)
                 (ValidatedQuery := ValidatedQuery))
    Body.arrayBuffer Body.RArrayBuffer ∧
  best_effort (formData (ValidatedBody := ValidatedBody)
                 (ValidatedCookies := ValidatedCookies)
                 (ValidatedHeaders := ValidatedHeaders)
                 (ValidatedQuery := ValidatedQuery))
    Body.formData Body.RFormData.
Proof.
  split; [|split].
  - best_effort_proof @blob.
  - best_effort_proof @buffer.
  - best_effort_proof @formData.
Qed.

End body.

(** ** The theorems at concrete requests *)

Lemma cached_accessors_repeat_witness :
  let ctx := Examples.simple (Examples.cached_schemas (@Examples.accept)) in
  (accesses cookies 3 ctx).1 !! 2%nat
    = Some (Returns (Some ({[ "a" := Some "1" ]} : gmap string (option string)))) ∧
  (accesses headers 3 ctx).1 !! 2%nat
    = Some (Returns ({[ "cookies" := "a=1" ]} : gmap string string)) ∧
  (accesses (query (H := Fragment.globals)) 3 ctx).1 !! 2%nat
    = Some (Returns (Some (Object {[ "d" := JBool true ]} ObjectPrototype))).
Proof.
  intros ctx.
  pose proof (cached_accessors_repeat (H := Fragment.globals) ctx 3 2
                ltac:(lia) ltac:(lia)) as (Hc & Hh & Hq).
  split; [|split].
  - rewrite (proj1 Hc). by vm_compute.
  - destruct Hh as (o & Hslot & Hget & _). rewrite Hget.
    vm_compute in Hslot. injection Hslot as <-. by vm_compute.
  - rewrite (proj1 Hq). by vm_compute.
Defined.

Lemma rejected_value_is_returned_by_next_access_witness :
  let ctx := Examples.simple (Examples.cached_schemas (@Examples.reject)) in
  ((cookies ctx).1 = Throws (Exception 400) ∧
   (cookies (cookies ctx).2).1
     = Returns (Some ({[ "a" := Some "1" ]} : gmap string (option string)))) ∧
  ((headers ctx).1 = Throws (Exception 400) ∧
   (headers (headers ctx).2).1
     = Returns ({[ "cookies" := "a=1" ]} : gmap string string)) ∧
  ((query (H := Fragment.globals) ctx).1 = Throws (Exception 400) ∧
   (query (H := Fragment.globals) (query (H := Fragment.globals) ctx).2).1
     = Returns (Some (Object {[ "d" := JBool true ]} ObjectPrototype))).
Proof.
  intros ctx.
  pose proof (rejected_value_is_returned_by_next_access
                (H := Fragment.globals) ctx) as (Hc & Hh & Hq & _).
  split; [|split].
  - apply (Hc (Examples.reject "ZodObject")); [done|done|by vm_compute|done].
  - apply (Hh (Examples.reject "ZodObject")); [done|done|by vm_compute|done].
  - apply (Hq (Examples.reject "ZodObject")); [done|done|by vm_compute|done].
Defined.

Lemma body_read_is_bounded_witness :
  let ctx := Examples.posting false Examples.silent
               (Some (Examples.body_schema (Examples.accept "ZodObject"))) in
  body (Examples.posting false Examples.silent None)
    = (Returns None, Examples.posting false Examples.silent None) ∧
  (body ctx).1 = Throws (Exception 413).
Proof.
  intros ctx. split.
  - exact (proj1 (body_read_is_bounded
                    (Examples.posting false Examples.silent None)) eq_refl).
  - destruct (proj2 (body_read_is_bounded ctx) (Examples.accept "ZodObject")
                eq_refl) as (k & _ & _ & Hlate & _).
    apply Hlate. by destruct k.
Defined.


Lemma raw_readers_never_throw_witness :
  let failing : Body.t :=
    {| Body.text := Pending; Body.json := Pending;
       Body.formData := Rejects 5 (NativeError "TypeError");
       Body.blob := Rejects 5 (NativeError "TypeError");
       Body.arrayBuffer := Pending |} in
  let ctx := Examples.posting false failing None in
  (blob None ctx).1 = Returns None ∧
  (buffer None ctx).1 = Returns None ∧
  (formData None ctx).1 = Returns None ∧
  (blob None (Examples.posting true failing None)).1 = Returns None.
Proof.
  intros failing ctx.
  destruct (@raw_readers_never_throw BodyInput (gmap string (option string))
              (gmap string string) (object JsonValue))
    as (Hblob & Hbuffer & Hform).
  split; [|split; [|split]].
  - destruct (Hblob None ctx) as (_ & _ & Hlive & _).
    destruct (Hlive eq_refl) as (_ & _ & Hnull).
    apply Hnull. right. by exists 5%N, (NativeError "TypeError").
  - destruct (Hbuffer None ctx) as (_ & _ & Hlive & _).
    destruct (Hlive eq_refl) as (_ & _ & Hnull).
    apply Hnull. by left.
  - destruct (Hform None ctx) as (_ & _ & Hlive & _).
    destruct (Hlive eq_refl) as (_ & _ & Hnull).
    apply Hnull. right. by exists 5%N, (NativeError "TypeError").
  - destruct (Hblob None (Examples.posting true failing None))
      as (_ & _ & _ & Hused).
    destruct (Hused eq_refl) as (_ & _ & Hthrow & _).
    by apply (Hthrow (NativeError "TypeError")).
Defined.

(** ** What a call changes *)

Section changes.
Context {ValidatedBody ValidatedCookies ValidatedHeaders ValidatedQuery : Type}.
Context `{Globals}.
Abbreviation Ctx :=
  (RequestContext.t ValidatedBody ValidatedCookies ValidatedHeaders ValidatedQuery).
Implicit Types ctx : Ctx.

Lemma cookies_context ctx :
  (cookies ctx).2 = ctx ∨
  (c ctx = None ∧
   (cookies ctx).2
     = set_c ctx (match cookies_try ctx with Returns o => o | Throws _ => ∅ end)).
Proof.
  destruct (c ctx) as [v|] eqn:Hc.
  { left. by rewrite (cookies_cached ctx v Hc). }
  destruct (schema_of ctx Schemas.cookies) as [schema|] eqn:Hs.
  - right. split; [done|].
    by destruct (cookies_first_access ctx schema Hc Hs) as (parsed & -> & ->).
  - left. unfold cookies. by rewrite Hc, Hs.
Qed.

Lemma headers_context ctx :
  (headers ctx).2 = ctx ∨
  (h ctx = None ∧
   (headers ctx).2
     = set_h ctx (headers_loop (Headers.entries (Request.headers (r ctx))) 0 ∅)).
Proof.
  destruct (h ctx) as [v|] eqn:Hh.
  { left. by rewrite (headers_cached ctx v Hh). }
  right. split; [done|]. by rewrite (headers_first_access ctx Hh).
Qed.

Lemma query_context ctx :
  (query ctx).2 = ctx ∨
  (q ctx = None ∧ (query ctx).2 = set_q ctx (query_parse (qs ctx)).1).
Proof.
  destruct (q ctx) as [v|] eqn:Hq.
  { left. by rewrite (query_cached ctx v Hq). }
  destruct (schema_of ctx Schemas.query) as [schema|] eqn:Hs.
  - right. split; [done|]. by rewrite (query_first_access ctx schema Hq Hs).
  - left. unfold query. by rewrite Hq, Hs.
Qed.

Lemma body_context ctx :
  (body ctx).2 = ctx ∨
  ∃ k, (body ctx).2 = set_r ctx (Request.called (Request.Read k) (r ctx)).
Proof.
  destruct (schema_of ctx Schemas.body) as [schema|] eqn:Hs.
  - right. destruct (body_try_one_read ctx schema) as (k & _ & Hctx & _).
    exists k. rewrite <- Hctx.
    destruct (body_try ctx schema) as [res ctx'] eqn:Htry.
    by rewrite (body_calls ctx schema res ctx' Hs Htry).
  - left. unfold body. by rewrite Hs.
Qed.

Lemma blob_context deadline ctx :
  ∃ what, (blob deadline ctx).2 = set_r ctx (Request.called what (r ctx)).
Proof.
  unfold blob, Request.clone, Request.blob.
  destruct (Request.bodyUsed (r ctx)); [|by eexists].
  destruct (Request.copy (r ctx)); by eexists.
Qed.

Lemma buffer_context deadline ctx :
  ∃ what, (buffer deadline ctx).2 = set_r ctx (Request.called what (r ctx)).
Proof.
  unfold buffer, Request.clone, Request.arrayBuffer.
  destruct (Request.bodyUsed (r ctx)); [|by eexists].
  destruct (Request.copy (r ctx)); by eexists.
Qed.

Lemma formData_context deadline ctx :
  ∃ what, (formData deadline ctx).2 = set_r ctx (Request.called what (r ctx)).
Proof.
  unfold formData, Request.clone, Request.formData.
  destruct (Request.bodyUsed (r ctx)); [|by eexists].
  destruct (Request.copy (r ctx)); by eexists.
Qed.

Lemma perform_context op ctx :
  (perform op ctx).2 =
    match op with
    | OpBody => (body ctx).2
    | OpCookies => (cookies ctx).2
    | OpHeaders => (headers ctx).2
    | OpQuery => (query ctx).2
    | OpBlob deadline => (blob deadline ctx).2
    | OpBuffer deadline => (buffer deadline ctx).2
    | OpFormData deadline => (formData deadline ctx).2
    end.
Proof.
  destruct op; simpl.
  - by destruct (body ctx).
  - by destruct (cookies ctx).
  - by destruct (headers ctx).
  - by destruct (query ctx).
  - by destruct (blob deadline ctx).
  - by destruct (buffer deadline ctx).
  - by destruct (formData deadline ctx).
Qed.

Lemma perform_thrown op ctx :
  (perform op ctx).1 =
    match op with
    | OpBody => thrown_by (body ctx).1
    | OpCookies => thrown_by (cookies ctx).1
    | OpHeaders => thrown_by (headers ctx).1
    | OpQuery => thrown_by (query ctx).1
    | OpBlob deadline => thrown_by (blob deadline ctx).1
    | OpBuffer deadline => thrown_by (buffer deadline ctx).1
    | OpFormData deadline => thrown_by (formData deadline ctx).1
    end.
Proof.
  destruct op; simpl.
  - by destruct (body ctx).
  - by destruct (cookies ctx).
  - by destruct (headers ctx).
  - by destruct (query ctx).
  - by destruct (blob deadline ctx).
  - by destruct (buffer deadline ctx).
  - by destruct (formData deadline ctx).
Qed.

(** A call either leaves the context alone, or sets one unset slot, or
    records a call on the request. *)
Lemma perform_shape op ctx :
  (perform op ctx).2 = ctx ∨
  (op = OpCookies ∧ c ctx = None ∧ ∃ v, (perform op ctx).2 = set_c ctx v) ∨
  (op = OpHeaders ∧ h ctx = None ∧ ∃ v, (perform op ctx).2 = set_h ctx v) ∨
  (op = OpQuery ∧ q ctx = None ∧ ∃ v, (perform op ctx).2 = set_q ctx v) ∨
  (op ≠ OpCookies ∧ op ≠ OpHeaders ∧ op ≠ OpQuery ∧
   ∃ what, (perform op ctx).2 = set_r ctx (Request.called what (r ctx))).
Proof.
  rewrite perform_context. destruct op.
  - destruct (body_context ctx) as [->|[k ->]]; [by left|].
    do 4 right. repeat split; try done. by eexists.
  - destruct (cookies_context ctx) as [->|[Hc ->]]; [by left|].
    right. left. repeat split; try done. by eexists.
  - destruct (headers_context ctx) as [->|[Hh ->]]; [by left|].
    do 2 right. left. repeat split; try done. by eexists.
  - destruct (query_context ctx) as [->|[Hq ->]]; [by left|].
    do 3 right. left. repeat split; try done. by eexists.
  - destruct (blob_context deadline ctx) as [what ->].
    do 4 right. repeat split; try done. by eexists.
  - destruct (buffer_context deadline ctx) as [what ->].
    do 4 right. repeat split; try done. by eexists.
  - destruct (formData_context deadline ctx) as [what ->].
    do 4 right. repeat split; try done. by eexists.
Qed.

Lemma run_cons op ops ctx :
  run (op :: ops) ctx
    = ((perform op ctx).1 :: (run ops (perform op ctx).2).1,
       (run ops (perform op ctx).2).2).
Proof.
  simpl. destruct (perform op ctx) as [e ctx']. simpl.
  by destruct (run ops ctx').
Qed.

(** What every call keeps, every sequence of calls keeps. *)
Lemma run_invariant (P : Ctx → Prop) ops ctx :
  (∀ op ctx', P ctx' → P (perform op ctx').2) →
  P ctx → P (run ops ctx).2.
Proof.
  intros Hstep. revert ctx. induction ops as [|op ops IH]; intros ctx HP.
  - done.
  - rewrite run_cons. simpl. apply IH. by apply Hstep.
Qed.

End changes.

(** ** Sequences of calls *)

Section sequences.
Context {ValidatedBody ValidatedCookies ValidatedHeaders ValidatedQuery : Type}.
Context `{Globals}.
Abbreviation Ctx :=
  (RequestContext.t ValidatedBody ValidatedCookies ValidatedHeaders ValidatedQuery).
Implicit Types ctx : Ctx.
Implicit Types bundle : option (Schemas.t ValidatedBody ValidatedCookies ValidatedHeaders ValidatedQuery).

(** X1. Whatever a handler calls and in whatever order, the context keeps
    what it was constructed with: the path parameters, the raw query
    string, the schemas, and the method, headers and body stream of the
    request.  [ip] is [undefined] throughout, since nothing assigns [#i]. *)
Theorem run_keeps_construction ops params raw_query req bundle :
  let ctx := (run ops (new params raw_query req bundle)).2 in
  ip ctx = None ∧ p ctx = params ∧ qs ctx = raw_query ∧ s ctx = bundle ∧
  method ctx = Request.method req ∧
  Request.headers (raw ctx) = Request.headers req ∧
  stream ctx = Request.body req ∧
  Request.copy (raw ctx) = Request.copy req.
Proof.
  apply (run_invariant (fun ctx : Ctx =>
    ip ctx = None ∧ p ctx = params ∧ qs ctx = raw_query ∧ s ctx = bundle ∧
    method ctx = Request.method req ∧
    Request.headers (raw ctx) = Request.headers req ∧
    stream ctx = Request.body req ∧
    Request.copy (raw ctx) = Request.copy req)); [|done].
  intros op ctx HP.
  destruct (perform_shape op ctx)
    as [->|[(_ & _ & v & ->)|[(_ & _ & v & ->)|[(_ & _ & v & ->)
       |(_ & _ & _ & what & ->)]]]]; done.
Qed.

(** X2. A slot that is set stays as it is through every sequence of calls,
    of the same accessor or of any other. *)
Theorem run_keeps_set_slots ops ctx :
  (∀ v, c ctx = Some v → c (run ops ctx).2 = Some v) ∧
  (∀ v, h ctx = Some v → h (run ops ctx).2 = Some v) ∧
  (∀ v, q ctx = Some v → q (run ops ctx).2 = Some v).
Proof.
  split; [|split]; intros v Hv;
    apply (run_invariant (fun ctx' : Ctx => _ ctx' = Some v)); try done;
    intros op ctx' HP;
    destruct (perform_shape op ctx')
      as [->|[(_ & Hc & w & ->)|[(_ & Hh & w & ->)|[(_ & Hq & w & ->)
         |(_ & _ & _ & what & ->)]]]]; try done; simpl in *; congruence.
Qed.

Lemma parse_cookies_no_proto_key header :
  parse_cookies header !! "__proto__" = None.
Proof.
  unfold parse_cookies. rewrite lookup_delete_ne by done.
  generalize (map (split equals_rest) (split semicolon_spaces header)).
  intros pairs.
  assert (Hfold : ∀ acc : gmap string (option string),
            acc !! "__proto__" = None →
            foldl (fun acc pair =>
                     let '(k, v) := destructure2 pair in
                     prim_set acc (to_property_key k) v) acc pairs
              !! "__proto__" = None).
  { induction pairs as [|pair pairs IH]; intros acc Hacc; [done|].
    simpl. apply IH. unfold prim_set. case_bool_decide as Hk; [done|].
    by rewrite lookup_insert_ne. }
  by apply Hfold.
Qed.

Lemma headers_loop_no_inherited entries num (o : gmap string string) k :
  k ∈ object_prototype_keys →
  o !! k = None →
  headers_loop entries num o !! k = None.
Proof.
  intros Hk. revert num o.
  induction entries as [|[key value] entries IH]; intros num o Ho; [done|].
  simpl. destruct (num =? 50)%nat; [done|]. apply IH.
  destruct (decide (toLowerCase key = k)) as [->|Hne].
  - unfold prim_truthy. rewrite Ho. by rewrite bool_decide_eq_true_2.
  - by rewrite headers_loop_step_other.
Qed.

Lemma obj_set_empty_key (o : object JsonValue) key v :
  key ≠ "" → own (obj_set o key v) !! "" = own o !! "".
Proof.
  intros Hkey. rewrite obj_set_other by done. by rewrite lookup_insert_ne.
Qed.

Lemma query_loop_no_empty_key arr (o : object JsonValue) :
  own o !! "" = None → own (query_loop arr o).1 !! "" = None.
Proof.
  revert o. induction arr as [|segment arr IH]; intros o Ho; [done|].
  cbn [query_loop].
  destruct (destructure2 (split (char "=") segment)) as [[key|] value];
    [|by apply IH].
  destruct key as [|a key]; [by apply IH|].
  destruct value as [value|].
  - destruct (outcome_bind (decodeURIComponent value) JSON_parse) as [j|e].
    + apply IH. by rewrite obj_set_empty_key.
    + destruct (decodeURIComponent value) as [x|e']; [|done].
      apply IH. by rewrite obj_set_empty_key.
  - apply IH. by rewrite obj_set_empty_key.
Qed.

Lemma query_parse_no_empty_key (x : option string) :
  own (query_parse x).1 !! "" = None.
Proof.
  unfold query_parse. destruct x as [[|a x]|]; try done.
  by apply query_loop_no_empty_key.
Qed.

(** X3. After any sequence of calls on a new context, the slots hold only
    mappings of a certain form: the cookies have neither the empty key nor
    the key [__proto__]; the headers have at most 50 entries, none under
    the name of a property of [Object.prototype]; the query has no empty
    key. *)
Theorem reachable_slots_are_well_formed ops params raw_query req bundle :
  let ctx := (run ops (new params raw_query req bundle)).2 in
  (∀ v, c ctx = Some v → v !! "" = None ∧ v !! "__proto__" = None) ∧
  (∀ o, h ctx = Some o →
        (size o ≤ 50)%nat ∧ ∀ k, k ∈ object_prototype_keys → o !! k = None) ∧
  (∀ o, q ctx = Some o → own o !! "" = None).
Proof.
  apply (run_invariant (fun ctx : Ctx =>
    (∀ v, c ctx = Some v → v !! "" = None ∧ v !! "__proto__" = None) ∧
    (∀ o, h ctx = Some o →
          (size o ≤ 50)%nat ∧ ∀ k, k ∈ object_prototype_keys → o !! k = None) ∧
    (∀ o, q ctx = Some o → own o !! "" = None))); [|done].
  intros op ctx (Hc & Hh & Hq). rewrite perform_context. destruct op.
  - by destruct (body_context ctx) as [->|[k ->]].
  - destruct (cookies_context ctx) as [->|[_ ->]]; [done|].
    split; [|done]. simpl. intros v [= <-].
    unfold cookies_try.
    destruct (_ <? _)%nat; [done|].
    split; [apply parse_cookies_no_empty_key|apply parse_cookies_no_proto_key].
  - destruct (headers_context ctx) as [->|[_ ->]]; [done|].
    split; [done|]. split; [|done]. simpl. intros o [= <-]. split.
    + pose proof (headers_loop_size
                    (Headers.entries (Request.headers (r ctx))) 0 ∅
                    ltac:(lia)) as Hsize.
      rewrite map_size_empty in Hsize. lia.
    + intros k Hk. by apply headers_loop_no_inherited.
  - destruct (query_context ctx) as [->|[_ ->]]; [done|].
    split; [done|]. split; [done|]. simpl. intros o [= <-].
    apply query_parse_no_empty_key.
  - by destruct (blob_context deadline ctx) as [what ->].
  - by destruct (buffer_context deadline ctx) as [what ->].
  - by destruct (formData_context deadline ctx) as [what ->].
Qed.

(** What the outcome of an accessor depends on. *)
Lemma cookies_depends_on ctx1 ctx2 :
  c ctx1 = c ctx2 → s ctx1 = s ctx2 →
  Request.headers (r ctx1) = Request.headers (r ctx2) →
  (cookies ctx1).1 = (cookies ctx2).1.
Proof.
  intros Hc Hs Hr. unfold cookies, schema_of, cookies_try.
  rewrite Hc, Hs, Hr.
  destruct (c ctx2); [done|].
  destruct (s ctx2 ≫= Schemas.cookies) as [schema|]; [|done]. simpl.
  by destruct (Zod.success _).
Qed.

Lemma headers_depends_on ctx1 ctx2 :
  h ctx1 = h ctx2 → s ctx1 = s ctx2 →
  Request.headers (r ctx1) = Request.headers (r ctx2) →
  (headers ctx1).1 = (headers ctx2).1.
Proof.
  intros Hh Hs Hr. unfold headers, schema_of.
  rewrite Hh, Hs, Hr.
  destruct (h ctx2); [done|].
  destruct (s ctx2 ≫= Schemas.headers) as [schema|]; [|done]. simpl.
  by destruct (Zod.success _).
Qed.

Lemma query_depends_on ctx1 ctx2 :
  q ctx1 = q ctx2 → s ctx1 = s ctx2 → qs ctx1 = qs ctx2 →
  (query ctx1).1 = (query ctx2).1.
Proof.
  intros Hq Hs Hqs. unfold query, schema_of.
  rewrite Hq, Hs, Hqs.
  destruct (q ctx2); [done|].
  destruct (s ctx2 ≫= Schemas.query) as [schema|]; [|done].
  destruct (query_parse (qs ctx2)) as [o [e|]]; [done|]. simpl.
  by destruct (Zod.success _).
Qed.

(** X4. What the first access to [cookies], [headers] or [query] returns
    or throws does not depend on what was called before it: reading the
    body, the raw readers and the other accessors leave its outcome as it
    would have been on the untouched context. *)
Theorem first_access_is_order_independent ops ctx :
  (OpCookies ∉ ops → (cookies (run ops ctx).2).1 = (cookies ctx).1) ∧
  (OpHeaders ∉ ops → (headers (run ops ctx).2).1 = (headers ctx).1) ∧
  (OpQuery ∉ ops → (query (run ops ctx).2).1 = (query ctx).1).
Proof.
  split; [|split]; intros Hnot.
  - apply cookies_depends_on.
    all: revert ctx; induction ops as [|op ops IH]; intros ctx; [done|].
    all: apply not_elem_of_cons in Hnot as [Hop Hnot].
    all: rewrite run_cons; simpl; rewrite (IH Hnot).
    all: destruct (perform_shape op ctx)
           as [->|[(-> & _)|[(_ & _ & v & ->)|[(_ & _ & v & ->)
              |(_ & _ & _ & what & ->)]]]]; done.
  - apply headers_depends_on.
    all: revert ctx; induction ops as [|op ops IH]; intros ctx; [done|].
    all: apply not_elem_of_cons in Hnot as [Hop Hnot].
    all: rewrite run_cons; simpl; rewrite (IH Hnot).
    all: destruct (perform_shape op ctx)
           as [->|[(_ & _ & v & ->)|[(-> & _)|[(_ & _ & v & ->)
              |(_ & _ & _ & what & ->)]]]]; done.
  - apply query_depends_on.
    all: revert ctx; induction ops as [|op ops IH]; intros ctx; [done|].
    all: apply not_elem_of_cons in Hnot as [Hop Hnot].
    all: rewrite run_cons; simpl; rewrite (IH Hnot).
    all: destruct (perform_shape op ctx)
           as [->|[(_ & _ & v & ->)|[(_ & _ & v & ->)|[(-> & _)
              |(_ & _ & _ & what & ->)]]]]; done.
Qed.

Lemma raw_reader_thrown deadline ctx :
  thrown_by (blob deadline ctx).1 = None ∧
  thrown_by (buffer deadline ctx).1 = None ∧
  thrown_by (formData deadline ctx).1 = None.
Proof.
  unfold blob, buffer, formData.
  repeat split.
  - by destruct (if Request.bodyUsed (r ctx) then _ else _).
  - by destruct (if Request.bodyUsed (r ctx) then _ else _).
  - by destruct (if Request.bodyUsed (r ctx) then _ else _).
Qed.

(** X5. On a context without schema bundle no call ever throws, in any
    sequence of calls, and the cookie and query slots stay unset. *)
Theorem no_schema_never_throws ops ctx :
  s ctx = None →
  Forall (fun e => e = None) (run ops ctx).1 ∧
  c (run ops ctx).2 = c ctx ∧ q (run ops ctx).2 = q ctx.
Proof.
  revert ctx. induction ops as [|op ops IH]; intros ctx Hs; [done|].
  rewrite run_cons. simpl.
  assert (Hstep : (perform op ctx).1 = None ∧ s (perform op ctx).2 = None ∧
                  c (perform op ctx).2 = c ctx ∧ q (perform op ctx).2 = q ctx).
  { rewrite perform_thrown, perform_context.
    destruct op.
    - unfold body, schema_of. by rewrite Hs.
    - unfold cookies, schema_of. rewrite Hs. simpl.
      by destruct (c ctx) eqn:Hc.
    - unfold headers, schema_of. rewrite Hs. simpl.
      by destruct (h ctx) eqn:Hh.
    - unfold query, schema_of. rewrite Hs. simpl.
      by destruct (q ctx) eqn:Hq.
    - split; [apply raw_reader_thrown|].
      by destruct (blob_context deadline ctx) as [what ->].
    - split; [apply raw_reader_thrown|].
      by destruct (buffer_context deadline ctx) as [what ->].
    - split; [apply raw_reader_thrown|].
      by destruct (formData_context deadline ctx) as [what ->]. }
  destruct Hstep as (Hnone & Hs' & Hc & Hq).
  destruct (IH _ Hs') as (Hall & Hc' & Hq').
  split; [by constructor|]. split; congruence.
Qed.

Lemma query_loop_error_source arr (o : object JsonValue) e :
  (query_loop arr o).2 = Some e →
  ∃ value, decodeURIComponent value = Throws e.
Proof.
  revert o. induction arr as [|segment arr IH]; intros o; [done|].
  cbn [query_loop].
  destruct (destructure2 (split (char "=") segment)) as [[key|] value];
    [|by apply IH].
  destruct key as [|a key]; [by apply IH|].
  destruct value as [value|]; [|by apply IH].
  destruct (outcome_bind (decodeURIComponent value) JSON_parse) as [j|e'];
    [by apply IH|].
  destruct (decodeURIComponent value) as [x|e''] eqn:Hdec; [by apply IH|].
  simpl. intros [= <-]. by exists value.
Qed.

(** X6. What the accessors throw: [cookies] and [headers] throw nothing
    but the 400 exception, and [headers] only under a headers schema;
    [body()] throws nothing but the 400 and the 413 exception; [query]
    throws the 400 exception or, as it is, what [decodeURIComponent] threw
    on a value. *)
Theorem accessors_error_taxonomy ctx e :
  ((cookies ctx).1 = Throws e → e = Exception 400) ∧
  ((headers ctx).1 = Throws e →
   e = Exception 400 ∧ is_Some (schema_of ctx Schemas.headers)) ∧
  ((body ctx).1 = Throws e → e = Exception 400 ∨ e = Exception 413) ∧
  ((query ctx).1 = Throws e →
   e = Exception 400 ∨ ∃ value, decodeURIComponent value = Throws e).
Proof.
  split; [|split; [|split]].
  - unfold cookies. destruct (c ctx); [done|].
    destruct (schema_of ctx Schemas.cookies) as [schema|]; [|done].
    destruct (Zod.success _); simpl; congruence.
  - unfold headers. destruct (h ctx); [done|].
    destruct (schema_of ctx Schemas.headers) as [schema|]; [|done].
    destruct (Zod.success _); simpl; [done|].
    intros [= <-]. by split.
  - unfold body. destruct (schema_of ctx Schemas.body) as [schema|]; [|done].
    destruct (body_try ctx schema) as [[decoded|err] ctx'].
    + destruct (Zod.safeParse schema decoded); simpl; [done|].
      intros [= <-]. by left.
    + simpl. intros [= <-]. destruct err; auto.
  - unfold query. destruct (q ctx); [done|].
    destruct (schema_of ctx Schemas.query) as [schema|]; [|done].
    destruct (query_parse (qs ctx)) as [o [e'|]] eqn:Hparse.
    + simpl. intros [= <-]. right.
      unfold query_parse in Hparse.
      destruct (qs ctx) as [[|a x]|]; try done.
      apply (query_loop_error_source (split (char "&") (String a x))
               empty_object).
      by rewrite Hparse.
    + destruct (Zod.success _); simpl; [done|]. intros [= <-]. by left.
Qed.

(** X7. [body()] keeps nothing: under a body schema, two calls make two
    reading calls on the request, of the same reader, and neither touches
    a cache slot. *)
Theorem body_is_not_cached ctx schema :
  schema_of ctx Schemas.body = Some schema →
  ∃ k, k ∈ [Body.RText; Body.RFormData; Body.RJson] ∧
    Request.calls (r (body (body ctx).2).2)
      = Request.Read k :: Request.Read k :: Request.calls (r ctx) ∧
    c (body (body ctx).2).2 = c ctx ∧
    h (body (body ctx).2).2 = h ctx ∧
    q (body (body ctx).2).2 = q ctx.
Proof.
  intros Hs.
  assert (Hcall : ∀ ctx' : Ctx,
            s ctx' = s ctx →
            Request.headers (r ctx') = Request.headers (r ctx) →
            ∃ res,
              body_try ctx' schema
                = (res, set_r ctx'
                          (Request.called
                             (Request.Read
                                (if wants_text (Zod._def schema) then Body.RText
                                 else if transforms ctx
                                         && bool_decide
                                              (Headers.get (Request.headers (r ctx))
                                                 "content-type"
                                               = Some "multipart/form-data")
                                      then Body.RFormData else Body.RJson))
                             (r ctx')))).
  { intros ctx' Hs' Hr'. unfold body_try, transforms. rewrite Hs', Hr'.
    destruct (wants_text _); [by eexists|].
    destruct (_ && _); by eexists. }
  set (k := if wants_text (Zod._def schema) then Body.RText
            else if transforms ctx && _ then Body.RFormData else Body.RJson)
    in Hcall.
  exists k. split.
  { subst k. destruct (wants_text _); [set_solver|].
    destruct (_ && _); set_solver. }
  destruct (Hcall ctx eq_refl eq_refl) as [res1 Htry1].
  rewrite (body_calls ctx schema _ _ Hs Htry1).
  set (ctx1 := set_r ctx (Request.called (Request.Read k) (r ctx))).
  assert (Hs1 : schema_of ctx1 Schemas.body = Some schema) by done.
  destruct (Hcall ctx1 eq_refl eq_refl) as [res2 Htry2].
  by rewrite (body_calls ctx1 schema _ _ Hs1 Htry2).
Qed.

End sequences.

(** ** Single pairs, names and values *)

Section pairs.
Context {ValidatedBody ValidatedCookies ValidatedHeaders ValidatedQuery : Type}.
Context `{Globals}.
Abbreviation Ctx :=
  (RequestContext.t ValidatedBody ValidatedCookies ValidatedHeaders ValidatedQuery).
Implicit Types ctx : Ctx.

Lemma not_in_app (a : ascii) x y :
  a ∉ list_ascii_of_string x → a ∉ list_ascii_of_string y →
  a ∉ list_ascii_of_string (x +:+ y).
Proof.
  rewrite list_ascii_of_string_app. intros Hx Hy [Hin|Hin]%elem_of_app; auto.
Qed.

Lemma not_in_cons (a b : ascii) x :
  a ≠ b → a ∉ list_ascii_of_string x →
  a ∉ list_ascii_of_string (String b x).
Proof.
  simpl. intros Hne Hx [Hin|Hin]%elem_of_cons; auto.
Qed.

(** X8. A [cookies] header that is one pair [k=v] within the length limit
    is stored as the mapping of [k] to [v], whatever further [=] the value
    holds. *)
Theorem cookies_single_pair ctx schema k v :
  c ctx = None →
  schema_of ctx Schemas.cookies = Some schema →
  Headers.get (Request.headers (r ctx)) "cookies" = Some (k +:+ String "=" v) →
  (String.length (k +:+ String "=" v) ≤ 1000)%nat →
  k ≠ "" → k ≠ "__proto__" → v ≠ "" →
  "="%char ∉ list_ascii_of_string k →
  ";"%char ∉ list_ascii_of_string k →
  ";"%char ∉ list_ascii_of_string v →
  Forall (fun a => LineTerminator a = false) (list_ascii_of_string v) →
  c (cookies ctx).2 = Some {[ k := Some v ]}.
Proof.
  intros Hc Hs Hget Hlen Hk Hproto Hv Heq Hsemi_k Hsemi_v Hline.
  destruct (cookies_first_access ctx schema Hc Hs) as (parsed & -> & ->).
  simpl. f_equal. unfold cookies_try. rewrite Hget. simpl.
  destruct (Nat.ltb_spec 1000 (String.length (k +:+ String "=" v)))
    as [Hgt|_]; [lia|].
  unfold parse_cookies.
  rewrite split_semicolon_none
    by (apply not_in_app; [done|by apply not_in_cons]).
  simpl. rewrite split_equals_value by done. simpl.
  unfold prim_set. rewrite bool_decide_eq_false_2 by done.
  rewrite delete_insert_ne by done. by rewrite delete_empty, insert_empty.
Qed.

Lemma headers_loop_values entries num (o : gmap string string) k v :
  (num ≤ 50)%nat →
  headers_loop entries num o !! k = Some v →
  o !! k = Some v ∨
  ∃ key, (key, v) ∈ take (50 - num) entries ∧ k = toLowerCase key.
Proof.
  revert num o. induction entries as [|[key value] entries IH];
    intros num o Hnum; [by left|].
  simpl. destruct (Nat.eqb_spec num 50) as [->|Hne]; [by left|].
  replace (50 - num)%nat with (S (50 - S num)) by lia. simpl.
  intros Hk. apply IH in Hk; [|lia].
  destruct Hk as [Hk|(key' & Hin & ->)].
  - destruct (negb _); [|by left].
    unfold prim_set in Hk. case_bool_decide; [by left|].
    destruct (decide (toLowerCase key = k)) as [<-|Hother].
    + rewrite lookup_insert_eq in Hk. injection Hk as ->.
      right. exists key. split; [left|done].
    + rewrite lookup_insert_ne in Hk by done. by left.
  - right. exists key'. split; [by right|done].
Qed.

(** X10. Every entry of the header mapping comes from one of the first 50
    header entries of the request: its key is the lower-cased name and its
    value the value of that entry. *)
Theorem headers_entries_come_from_first_50 ctx o k v :
  h ctx = None →
  h (headers ctx).2 = Some o →
  o !! k = Some v →
  ∃ key, (key, v) ∈ take 50 (Headers.entries (Request.headers (r ctx)))
         ∧ k = toLowerCase key.
Proof.
  intros Hh Hslot Hk. rewrite (headers_first_access ctx Hh) in Hslot.
  simpl in Hslot. injection Hslot as <-.
  apply headers_loop_values in Hk as [Hk|Hk]; [done|done|lia].
Qed.

(** X11. Among the first 50 entries, the first entry of a name decides the
    value under that name when its value is not empty and the name is not
    one of [Object.prototype]: entries of that name that come later change
    nothing. *)
Theorem headers_first_nonempty_value_is_kept ctx
    (before after : list (string * string)) key value :
  h ctx = None →
  Headers.entries (Request.headers (r ctx))
    = (before ++ (key, value) :: after)%list →
  (length before < 50)%nat →
  Forall (fun entry => toLowerCase entry.1 ≠ toLowerCase key) before →
  toLowerCase key ∉ object_prototype_keys →
  value ≠ "" →
  ∃ o, h (headers ctx).2 = Some o ∧ o !! toLowerCase key = Some value.
Proof.
  intros Hh Hentries Hlen Hbefore Hkey Hvalue.
  rewrite (headers_first_access ctx Hh), Hentries. simpl.
  eexists; split; [reflexivity|].
  apply headers_loop_first_nonempty; try done. lia.
Qed.

(** X12. Header entries after the fiftieth are never looked at: two
    requests whose first 50 entries are the same get the same mapping. *)
Theorem headers_ignore_entries_after_50 ctx1 ctx2 :
  h ctx1 = None → h ctx2 = None →
  take 50 (Headers.entries (Request.headers (r ctx1)))
    = take 50 (Headers.entries (Request.headers (r ctx2))) →
  h (headers ctx1).2 = h (headers ctx2).2.
Proof.
  intros Hh1 Hh2 Htake.
  rewrite (headers_first_access ctx1 Hh1), (headers_first_access ctx2 Hh2).
  simpl. f_equal.
  rewrite (headers_loop_take (Headers.entries (Request.headers (r ctx1))))
    by lia.
  rewrite (headers_loop_take (Headers.entries (Request.headers (r ctx2))))
    by lia.
  simpl. by rewrite Htake.
Qed.

Lemma query_parse_single (x : string) :
  x ≠ "" →
  "&"%char ∉ list_ascii_of_string x →
  query_parse (Some x) = query_loop [x] empty_object.
Proof.
  intros Hx Hamp. unfold query_parse. rewrite split_char_none by done.
  by destruct x.
Qed.

(** X13. A query string that is one segment: a key alone is stored as the
    flag [true]; [key=value] is stored as the JSON value of the decoded
    value when that parses, and as the decoded string when it does not. *)
Theorem query_single_segment ctx schema key :
  q ctx = None →
  schema_of ctx Schemas.query = Some schema →
  key ≠ "" → key ≠ "__proto__" →
  "="%char ∉ list_ascii_of_string key →
  "&"%char ∉ list_ascii_of_string key →
  (qs ctx = Some key →
   q (query ctx).2 = Some (Object {[ key := JBool true ]} ObjectPrototype)) ∧
  (∀ value x j,
     qs ctx = Some (key +:+ String "=" value) →
     "="%char ∉ list_ascii_of_string value →
     "&"%char ∉ list_ascii_of_string value →
     decodeURIComponent value = Returns x →
     JSON_parse x = Returns j →
     q (query ctx).2 = Some (Object {[ key := j ]} ObjectPrototype)) ∧
  (∀ value x e,
     qs ctx = Some (key +:+ String "=" value) →
     "="%char ∉ list_ascii_of_string value →
     "&"%char ∉ list_ascii_of_string value →
     decodeURIComponent value = Returns x →
     JSON_parse x = Throws e →
     q (query ctx).2 = Some (Object {[ key := JStr x ]} ObjectPrototype)).
Proof.
  intros Hq Hs Hkey Hproto Heq Hamp.
  assert (Hset : ∀ j : JsonValue,
            obj_set empty_object key j = Object {[ key := j ]} ObjectPrototype).
  { intros j. unfold obj_set. rewrite bool_decide_eq_false_2 by done.
    simpl. by rewrite insert_empty. }
  assert (Hpair : ∀ value,
            "="%char ∉ list_ascii_of_string value →
            "&"%char ∉ list_ascii_of_string value →
            query_parse (Some (key +:+ String "=" value))
              = query_loop [key +:+ String "=" value] empty_object).
  { intros value Hv1 Hv2. apply query_parse_single.
    - by destruct key.
    - apply not_in_app; [done|]. by apply not_in_cons. }
  rewrite (query_first_access ctx schema Hq Hs). simpl.
  split; [|split].
  - intros ->. rewrite (query_parse_single key Hkey Hamp).
    rewrite (query_loop_flag key [] empty_object key);
      [|by apply query_segment_flag|done].
    simpl. by rewrite Hset.
  - intros value x j -> Hv1 Hv2 Hdec Hparse.
    rewrite (Hpair value Hv1 Hv2).
    rewrite (query_loop_json _ [] empty_object key value j);
      [|by apply query_segment_pair|done|by rewrite Hdec].
    simpl. by rewrite Hset.
  - intros value x e -> Hv1 Hv2 Hdec Hparse.
    rewrite (Hpair value Hv1 Hv2).
    rewrite (query_loop_text _ [] empty_object key value e x);
      [|by apply query_segment_pair|done|by rewrite Hdec|done].
    simpl. by rewrite Hset.
Qed.

(** X14. A query string [key=value] whose value cannot be decoded: the
    first access throws what [decodeURIComponent] threw, not one of the
    status exceptions, and leaves the slot set to the empty mapping, which
    every later access returns without validation. *)
Theorem query_undecodable_value ctx schema key value e :
  q ctx = None →
  schema_of ctx Schemas.query = Some schema →
  qs ctx = Some (key +:+ String "=" value) →
  key ≠ "" →
  "="%char ∉ list_ascii_of_string key →
  "&"%char ∉ list_ascii_of_string key →
  "="%char ∉ list_ascii_of_string value →
  "&"%char ∉ list_ascii_of_string value →
  decodeURIComponent value = Throws e →
  query ctx = (Throws e, set_q ctx empty_object) ∧
  query (query ctx).2 = (Returns (Some empty_object), (query ctx).2).
Proof.
  intros Hq Hs Hqs Hkey Heq Hamp Hv1 Hv2 Hdec.
  assert (Hfirst : query ctx = (Throws e, set_q ctx empty_object)).
  { rewrite (query_first_access ctx schema Hq Hs), Hqs.
    rewrite query_parse_single;
      [|by destruct key|apply not_in_app; [done|by apply not_in_cons]].
    rewrite (query_loop_uncaught _ [] empty_object key value e);
      [done|by apply query_segment_pair|done|done]. }
  split; [done|]. rewrite Hfirst. simpl. by apply query_cached.
Qed.

Lemma split_go_char_app (c : ascii) x y piece :
  split_go (char c) (x +:+ String c y) 0 piece
    = (split_go (char c) x 0 piece ++ split_go (char c) y 0 "")%list.
Proof.
  revert piece. induction x as [|a x IH]; intros piece.
  - simpl. unfold char at 1. by rewrite Ascii.eqb_refl.
  - rewrite append_cons. cbn [split_go].
    replace (char c a (x +:+ String c y)) with (char c a x) by done.
    destruct (char c a x) as [[caps n]|] eqn:Hmatch; [|by apply IH].
    unfold char in Hmatch. destruct (Ascii.eqb a c); [|done].
    injection Hmatch as <- <-. simpl. by rewrite IH.
Qed.

Lemma query_loop_app arr1 arr2 (o : object JsonValue) :
  query_loop (arr1 ++ arr2) o =
    match query_loop arr1 o with
    | (o', None) => query_loop arr2 o'
    | (o', Some e) => (o', Some e)
    end.
Proof.
  revert o. induction arr1 as [|segment arr1 IH]; intros o; [done|].
  rewrite <- app_comm_cons. cbn [query_loop].
  destruct (destructure2 (split (char "=") segment)) as [[key|] value];
    [|by apply IH].
  destruct key as [|a key]; [by apply IH|].
  destruct value as [value|]; [|by apply IH].
  destruct (outcome_bind (decodeURIComponent value) JSON_parse) as [j|e'];
    [by apply IH|].
  destruct (decodeURIComponent value) as [x|e'']; [by apply IH|done].
Qed.

(** X15. The segments of a query string are read from left to right, and
    a value that cannot be decoded ends the reading: when the first access
    on a query string throws what [decodeURIComponent] threw, it throws
    the same and leaves the same mapping on that query string followed by
    [&] and anything else. *)
Theorem query_stops_at_undecodable_value ctx1 ctx2 schema x y e :
  q ctx1 = None → q ctx2 = None →
  schema_of ctx1 Schemas.query = Some schema →
  schema_of ctx2 Schemas.query = Some schema →
  qs ctx1 = Some x →
  qs ctx2 = Some (x +:+ String "&" y) →
  (query_parse (Some x)).2 = Some e →
  (query ctx1).1 = Throws e ∧
  (query ctx2).1 = Throws e ∧
  q (query ctx2).2 = q (query ctx1).2.
Proof.
  intros Hq1 Hq2 Hs1 Hs2 Hqs1 Hqs2 Herr.
  assert (Hsame : query_parse (Some (x +:+ String "&" y)) = query_parse (Some x)).
  { destruct x as [|a x]; [done|].
    unfold query_parse in *. rewrite append_cons.
    rewrite <- append_cons. unfold split. rewrite split_go_char_app.
    rewrite query_loop_app.
    change (split_go (char "&") (String a x) 0 "")
      with (split (char "&") (String a x)).
    by destruct (query_loop (split (char "&") (String a x)) empty_object)
      as [o' [e'|]]. }
  rewrite (query_first_access ctx1 schema Hq1 Hs1), Hqs1.
  rewrite (query_first_access ctx2 schema Hq2 Hs2), Hqs2, Hsame.
  by rewrite Herr.
Qed.

End pairs.

(** ** The further theorems at concrete requests *)

Lemma run_keeps_set_slots_witness :
  let ctx := (cookies (Examples.simple
                         (Examples.cached_schemas (@Examples.accept)))).2 in
  c (run (H := Fragment.globals) [OpHeaders; OpCookies; OpBody; OpBlob None] ctx).2
    = Some ({[ "a" := Some "1" ]} : gmap string (option string)).
Proof.
  intros ctx.
  apply (proj1 (run_keeps_set_slots (H := Fragment.globals)
                  [OpHeaders; OpCookies; OpBody; OpBlob None] ctx)).
  by vm_compute.
Defined.

Lemma reachable_slots_are_well_formed_witness :
  let ctx := (run (H := Fragment.globals) [OpCookies; OpHeaders; OpQuery]
                (new ∅ (Some "=x&d") (Examples.with_cookies "=1; b=2")
                   (Some (Examples.cached_schemas (@Examples.accept))))).2 in
  c ctx = Some ({[ "b" := Some "2" ]} : gmap string (option string)) ∧
  (∀ v, c ctx = Some v → v !! "" = None ∧ v !! "__proto__" = None).
Proof.
  intros ctx. split; [by vm_compute|].
  exact (proj1 (reachable_slots_are_well_formed (H := Fragment.globals)
                  [OpCookies; OpHeaders; OpQuery] ∅ (Some "=x&d")
                  (Examples.with_cookies "=1; b=2")
                  (Some (Examples.cached_schemas (@Examples.accept))))).
Defined.

Lemma first_access_is_order_independent_witness :
  let ctx := Examples.simple (Examples.cached_schemas (@Examples.accept)) in
  (cookies (run (H := Fragment.globals)
              [OpBody; OpHeaders; OpQuery; OpFormData (Some 10%N)] ctx).2).1
    = (cookies ctx).1.
Proof.
  intros ctx.
  apply (proj1 (first_access_is_order_independent (H := Fragment.globals)
                  [OpBody; OpHeaders; OpQuery; OpFormData (Some 10%N)] ctx)).
  intros Hin. repeat (apply elem_of_cons in Hin as [Hin|Hin]; [discriminate|]).
  by apply elem_of_nil in Hin.
Defined.

Lemma no_schema_never_throws_witness :
  let ctx := Examples.context (Some "a=%") (Examples.with_cookies Examples.overlong)
               None in
  Forall (fun e => e = None)
    (run (H := Fragment.globals)
       [OpCookies; OpQuery; OpHeaders; OpBody; OpBuffer None] ctx).1.
Proof.
  intros ctx.
  exact (proj1 (no_schema_never_throws (H := Fragment.globals)
                  [OpCookies; OpQuery; OpHeaders; OpBody; OpBuffer None] ctx
                  eq_refl)).
Defined.

Lemma accessors_error_taxonomy_witness :
  let ctx := Examples.posting false Examples.silent
               (Some (Examples.body_schema (Examples.accept "ZodObject"))) in
  (body ctx).1 = Throws (Exception 413) ∧
  (Exception 413 = Exception 400 ∨ Exception 413 = Exception 413).
Proof.
  intros ctx.
  assert (Hthrows : (body ctx).1 = Throws (Exception 413)) by reflexivity.
  split; [exact Hthrows|].
  exact (proj1 (proj2 (proj2 (accessors_error_taxonomy (H := Fragment.globals)
                                ctx (Exception 413)))) Hthrows).
Defined.

Lemma body_is_not_cached_witness :
  let ctx := Examples.posting false Examples.silent
               (Some (Examples.body_schema (Examples.accept "ZodObject"))) in
  ∃ k, Request.calls (r (body (body ctx).2).2)
         = [Request.Read k; Request.Read k].
Proof.
  intros ctx.
  destruct (body_is_not_cached ctx (Examples.accept "ZodObject") eq_refl)
    as (k & _ & Hcalls & _).
  by exists k.
Defined.

Lemma cookies_single_pair_witness :
  let ctx := Examples.context None (Examples.with_cookies "k=a=b")
               (Some (Examples.cookie_schema (Examples.accept "ZodObject"))) in
  c (cookies ctx).2 = Some {[ "k" := Some "a=b" ]}.
Proof.
  intros ctx.
  apply (cookies_single_pair ctx (Examples.accept "ZodObject") "k" "a=b");
    try done; compute_done.
Defined.

Lemma parse_cookies_last_wins_witness :
  parse_cookies "a=1; b=2; a=3" !! "a" = Some (Some "3").
Proof.
  rewrite (parse_cookies_last_wins "a=1; b=2; a=3" "a"); [|done|done].
  by vm_compute.
Defined.

Lemma headers_entries_come_from_first_50_witness :
  let ctx := Examples.context None (Examples.with_cookies "a=1") None in
  ∃ key, (key, "a=1") ∈ take 50 (Headers.entries (Request.headers (r ctx)))
         ∧ "cookies" = toLowerCase key.
Proof.
  intros ctx.
  apply (headers_entries_come_from_first_50 ctx {[ "cookies" := "a=1" ]}
           "cookies" "a=1"); by vm_compute.
Defined.

Lemma headers_first_nonempty_value_is_kept_witness :
  let req := Examples.request (fun _ => None)
               [("Accept", "text/html"); ("X-Id", "1"); ("x-id", "2")]
               false Examples.silent (Returns Examples.silent) in
  let ctx := Examples.context None req None in
  ∃ o, h (headers ctx).2 = Some o ∧ o !! "x-id" = Some "1".
Proof.
  intros req ctx.
  apply (headers_first_nonempty_value_is_kept ctx
           [("Accept", "text/html")] [("x-id", "2")] "X-Id" "1");
    try done; compute_done.
Defined.

Lemma headers_ignore_entries_after_50_witness :
  let fifty := imap (fun n (_ : unit) => (String (ascii_of_nat (97 + n)) "", "v"))
                 (replicate 50 ()) in
  let req1 := Examples.request (fun _ => None) (fifty ++ [("late", "1")])
                false Examples.silent (Returns Examples.silent) in
  let req2 := Examples.request (fun _ => None) (fifty ++ [("other", "2")])
                false Examples.silent (Returns Examples.silent) in
  h (headers (Examples.context None req1 None)).2
    = h (headers (Examples.context None req2 None)).2.
Proof.
  intros fifty req1 req2.
  apply headers_ignore_entries_after_50; by vm_compute.
Defined.

Lemma query_single_segment_witness :
  let bundle : Examples.bundle_type :=
    {| Schemas.body := None; Schemas.cookies := None; Schemas.headers := None;
       Schemas.query := Some (Examples.accept "ZodObject");
       Schemas.transform := false |} in
  let ctx := Examples.context (Some "n=42") (Examples.with_cookies "")
               (Some bundle) in
  q (query (H := Fragment.globals) ctx).2
    = Some (Object {[ "n" := JNum 42 ]} ObjectPrototype).
Proof.
  intros bundle ctx.
  pose proof (query_single_segment (H := Fragment.globals) ctx
                (Examples.accept "ZodObject") "n" eq_refl eq_refl
                ltac:(done) ltac:(done) ltac:(compute_done)
                ltac:(compute_done)) as (_ & Hjson & _).
  apply (Hjson "42" "42" (JNum 42)); try done; compute_done.
Defined.

Lemma query_undecodable_value_witness :
  let bundle : Examples.bundle_type :=
    {| Schemas.body := None; Schemas.cookies := None; Schemas.headers := None;
       Schemas.query := Some (Examples.reject "ZodObject");
       Schemas.transform := false |} in
  let ctx := Examples.context (Some "a=%") (Examples.with_cookies "")
               (Some bundle) in
  (query (H := Fragment.globals) ctx).1 = Throws (NativeError "URIError") ∧
  (query (H := Fragment.globals) (query (H := Fragment.globals) ctx).2).1
    = Returns (Some empty_object).
Proof.
  intros bundle ctx.
  pose proof (query_undecodable_value (H := Fragment.globals) ctx
                (Examples.reject "ZodObject") "a" "%" (NativeError "URIError")
                eq_refl eq_refl eq_refl ltac:(done) ltac:(compute_done)
                ltac:(compute_done) ltac:(compute_done) ltac:(compute_done)
                eq_refl) as (Hfirst & Hnext).
  split; [by rewrite Hfirst|by rewrite Hnext].
Defined.

Lemma query_stops_at_undecodable_value_witness :
  let bundle : Examples.bundle_type :=
    {| Schemas.body := None; Schemas.cookies := None; Schemas.headers := None;
       Schemas.query := Some (Examples.accept "ZodObject");
       Schemas.transform := false |} in
  let ctx := Examples.context (Some "a=1&b=%&c=2") (Examples.with_cookies "")
               (Some bundle) in
  (query (H := Fragment.globals) ctx).1 = Throws (NativeError "URIError") ∧
  q (query (H := Fragment.globals) ctx).2
    = Some (Object {[ "a" := JNum 1 ]} ObjectPrototype).
Proof.
  intros bundle ctx.
  pose proof (query_stops_at_undecodable_value (H := Fragment.globals)
                (Examples.context (Some "a=1&b=%") (Examples.with_cookies "")
                   (Some bundle))
                ctx (Examples.accept "ZodObject") "a=1&b=%" "c=2"
                (NativeError "URIError")
                eq_refl eq_refl eq_refl eq_refl eq_refl eq_refl
                ltac:(compute_done)) as (_ & Hthrows & Hslot).
  split; [exact Hthrows|]. rewrite Hslot. compute_done.
Defined.
